(** * Colour enrichment of a token list: process_tokenlist.js

    A shallow embedding of the script, followed by the proofs of its
    specified properties and of further properties of the code.

    Conventions of the embedding.
    - JavaScript numbers are exact rationals ([Q]): [mixColors] is the
      arithmetic of the source without the rounding of binary64.  The
      expression is also given on doubles ([mixedChannel64]) and checked
      against the rationals where that is a finite check: at the ratios 1
      and 0, and at the program's one call (ratio [0.1], colour white).
      [mixColors64] is the whole function on doubles; at the ratios [0.5]
      and [0.1] it returns what [mixColors] returns, for all arguments.
    - JavaScript strings are [string]; only ASCII characters can match the
      colour pattern, so the encoding of other characters is immaterial.
    - An object is the list of its own properties in iteration order, and
      [setProp] is assignment to a property of an object created by [{}].
    - A thrown exception is the [Throw] case of [Res]; [null] and
      [undefined] are [None] where the source tests for them.
    - The file system and the console are an explicit [World]; what the
      HTTP client, the palette library and the clock answer is a [Host].
      Console lines and the preview are kept as data, not as text. *)

From Stdlib Require Import ZArith QArith Qround Qabs String Ascii List Lia Lqa.
From Stdlib Require Import Strings.Byte.
From Stdlib Require Hexadecimal HexadecimalString Decimal DecimalString.
From Stdlib Require PrimFloat FloatOps SpecFloat Uint63 FloatAxioms.
From stdpp Require Import gmap strings list.

Local Open Scope Z_scope.

(** ** Exceptions *)

Inductive Error : Type :=
| TypeError                    (* property read on null or undefined *)
| HostError (what : string).   (* rejected promise of a collaborator *)

Inductive Res (A : Type) : Type :=
| Ok (a : A)
| Throw (e : Error).
Arguments Ok {A} a.
Arguments Throw {A} e.

#[export] Instance Res_ret : MRet Res := λ A a, Ok a.
#[export] Instance Res_bind : MBind Res := λ A B f x,
  match x with
  | Ok a => f a
  | Throw e => Throw e
  end.

(** ** Colour Mixer: [mixColors] (source lines 8-36) *)

Record Rgb : Type := { r : Z; g : Z; b : Z }.

(** The character class [[a-f\d]] under the [i] flag. *)
Definition isHexDigit (c : ascii) : bool :=
  let n := Z.of_N (N_of_ascii c) in
  ((48 <=? n) && (n <=? 57)) || ((97 <=? n) && (n <=? 102))
  || ((65 <=? n) && (n <=? 70)).

Definition digitValue (c : ascii) : Z :=
  let n := Z.of_N (N_of_ascii c) in
  if (48 <=? n) && (n <=? 57) then n - 48
  else if (97 <=? n) && (n <=? 102) then n - 87
  else n - 55.

(** [parseInt(s, 16)] on a capture group of the pattern (hex digits only). *)
Definition parseInt16 (s : string) : Z :=
  fold_left (λ acc c, 16 * acc + digitValue c) (list_ascii_of_string s) 0.

(** [/^#?([a-f\d]{2})([a-f\d]{2})([a-f\d]{2})$/i.exec(hex)]: the three
    capture groups, or [None] for [null].  ['#'] is no hex digit, so the
    optional ['#'] is consumed whenever it is there. *)
Definition hexPatternExec (hex : string) : option (string * string * string) :=
  let digits := match hex with
                | String "#"%char rest => rest
                | _ => hex
                end in
  match digits with
  | String c1 (String c2 (String c3 (String c4 (String c5 (String c6 EmptyString))))) =>
      if forallb isHexDigit [c1; c2; c3; c4; c5; c6]
      then Some (String c1 (String c2 EmptyString),
                 String c3 (String c4 EmptyString),
                 String c5 (String c6 EmptyString))
      else None
  | _ => None
  end.

Definition hexToRgb (hex : string) : option Rgb :=
  match hexPatternExec hex with
  | Some (result1, result2, result3) =>
      Some {| r := parseInt16 result1;
              g := parseInt16 result2;
              b := parseInt16 result3 |}
  | None => None
  end.

(** [Math.round]: nearest integer, halves towards +infinity. *)
Definition Math_round (x : Q) : Z := Qfloor (x + (1 # 2)).

(** [Number.prototype.toString(16)] on an integer. *)
Definition toString16 (n : Z) : string :=
  HexadecimalString.NilZero.string_of_int (Z.to_hex_int n).

(** The body of the [map] callback of [rgbToHex] after [Math.round(x)]:
    [hex = n.toString(16)], then [hex.length === 1 ? '0' + hex : hex]. *)
Definition renderChannel (n : Z) : string :=
  let hex := toString16 n in
  if (String.length hex =? 1)%nat then "0" +:+ hex else hex.

Definition rgbToHex (r g b : Q) : string :=
  "#" +:+ String.concat "" (map (λ x, renderChannel (Math_round x)) [r; g; b]).

(** Reading a property of [rgb1] or [rgb2]: a [TypeError] on [null]. *)
Definition readRgb (rgb : option Rgb) : Res Rgb :=
  match rgb with
  | Some c => Ok c
  | None => Throw TypeError
  end.

Definition mixColors (color1 color2 : string) (ratio : Q) : Res string :=
  let rgb1 := hexToRgb color1 in
  let rgb2 := hexToRgb color2 in
  rgb1 ← readRgb rgb1;
  rgb2 ← readRgb rgb2;
  let mixed_r := (inject_Z (r rgb1) * ratio + inject_Z (r rgb2) * (1 - ratio))%Q in
  let mixed_g := (inject_Z (g rgb1) * ratio + inject_Z (g rgb2) * (1 - ratio))%Q in
  let mixed_b := (inject_Z (b rgb1) * ratio + inject_Z (b rgb2) * (1 - ratio))%Q in
  mret (rgbToHex mixed_r mixed_g mixed_b).

(** The default of the third parameter, [ratio = 0.5]. *)
Definition mixColors_default (color1 color2 : string) : Res string :=
  mixColors color1 color2 (1 # 2).

(** *** The mixer in the words of the specification

    A colour is a 24-bit RGB value, written [#rrggbb] with two lowercase
    hexadecimal digits per channel. *)

Definition channel (z : Z) : Prop := 0 <= z <= 255.

Definition validRgb (c : Rgb) : Prop :=
  channel (r c) ∧ channel (g c) ∧ channel (b c).

Definition lowerHexDigit (d : Z) : ascii :=
  nth (Z.to_nat d) (list_ascii_of_string "0123456789abcdef") "0"%char.

Definition hexPair (z : Z) : string :=
  String (lowerHexDigit (z / 16)) (String (lowerHexDigit (z mod 16)) EmptyString).

Definition colorString (c : Rgb) : string :=
  "#" +:+ hexPair (r c) +:+ hexPair (g c) +:+ hexPair (b c).

Definition isLowerHexDigit (c : ascii) : bool :=
  let n := Z.of_N (N_of_ascii c) in
  ((48 <=? n) && (n <=? 57)) || ((97 <=? n) && (n <=? 102)).

(** Seven characters: ['#'] and six lowercase hexadecimal digits. *)
Definition isColorString (s : string) : bool :=
  match s with
  | String "#"%char
      (String c1 (String c2 (String c3 (String c4 (String c5 (String c6 EmptyString)))))) =>
      forallb isLowerHexDigit [c1; c2; c3; c4; c5; c6]
  | _ => false
  end.

(** Six hexadecimal digits of either case, with or without a leading ['#']. *)
Definition HexDigit (c : ascii) : Prop :=
  In c (list_ascii_of_string "0123456789abcdefABCDEF").

Definition matchesHexPattern (s : string) : Prop :=
  ∃ ds : list ascii,
    length ds = 6%nat ∧ Forall HexDigit ds
    ∧ (s = string_of_list_ascii ds ∨ s = String "#"%char (string_of_list_ascii ds)).

Definition interpolate (ratio : Q) (x1 x2 : Z) : Q :=
  (ratio * inject_Z x1 + (1 - ratio) * inject_Z x2)%Q.

Definition nearestInteger (x : Q) (n : Z) : Prop :=
  (Qabs (x - inject_Z n) <= 1 # 2)%Q.

Definition clamp255 (n : Z) : Z := Z.max 0 (Z.min 255 n).

Definition mixChannel (ratio : Q) (x1 x2 : Z) : Z :=
  clamp255 (Math_round (interpolate ratio x1 x2)).

(** A colour as the palette library returns it: the array [[r, g, b]]. *)
Definition rgbArray (c : Rgb) : list Z := [r c; g c; b c].

Definition mixSpec (c1 c2 : Rgb) (ratio : Q) : Rgb :=
  {| r := mixChannel ratio (r c1) (r c2);
     g := mixChannel ratio (g c1) (g c2);
     b := mixChannel ratio (b c1) (b c2) |}.

(** ** JSON values and objects *)

#[warnings="-register-all"]
Inductive JValue : Type :=
| JNull
| JBool (value : bool)
| JNum (value : Q)
| JStr (value : string)
| JArr (items : list JValue)
| JObj (props : list (string * JValue)).

(** An object is the list of its own enumerable properties in the order in
    which [for ... in] and [JSON.stringify] visit them; keys are unique. *)
Definition Obj : Type := list (string * JValue).

Definition keys (o : Obj) : list string := map fst o.

(** [o[key]], with [None] for [undefined]. *)
Fixpoint getProp (o : Obj) (key : string) : option JValue :=
  match o with
  | [] => None
  | (k, v) :: rest => if String.eqb k key then Some v else getProp rest key
  end.

Fixpoint replaceProp (key : string) (v : JValue) (o : Obj) : Obj :=
  match o with
  | [] => []
  | (k, x) :: rest =>
      if String.eqb k key then (k, v) :: rest
      else (k, x) :: replaceProp key v rest
  end.

Definition hasKey (key : string) (o : Obj) : bool :=
  existsb (String.eqb key) (keys o).

(** [o[key] = v] on an object whose prototype chain ends in
    [Object.prototype]: an existing own property keeps its place and takes
    the new value, a new key is appended.  The key ["__proto__"] reaches the
    accessor of [Object.prototype] instead: the assignment sets or ignores
    the prototype and creates no own property.  (Where JavaScript puts a new
    array-index key is in [jsSetProp] below; in the merge loop that is the
    end of the object too.) *)
Definition setProp (key : string) (v : JValue) (o : Obj) : Obj :=
  if String.eqb key "__proto__" then o
  else if hasKey key o then replaceProp key v o
  else o ++ [(key, v)].

(** *** The place of array-index keys

    JavaScript lists the own keys that are array indices (canonical decimal
    numerals below 2^32 - 1) first, in ascending order, and the other keys
    after them in the order of their creation. *)

Definition isDigit (c : ascii) : bool :=
  let n := Z.of_N (N_of_ascii c) in (48 <=? n) && (n <=? 57).

Definition decimalValue (s : string) : Z :=
  fold_left (λ acc c, 10 * acc + (Z.of_N (N_of_ascii c) - 48))
    (list_ascii_of_string s) 0.

Definition arrayIndex (key : string) : option Z :=
  match key with
  | EmptyString => None
  | String c rest =>
      if forallb isDigit (list_ascii_of_string key)
         && (negb (Ascii.eqb c "0") || String.eqb rest "")
         && (decimalValue key <=? 4294967294)
      then Some (decimalValue key)
      else None
  end.

(** A new array-index key goes after the smaller indices. *)
Fixpoint insertIndexed (n : Z) (key : string) (v : JValue) (o : Obj) : Obj :=
  match o with
  | [] => [(key, v)]
  | (k, x) :: rest =>
      match arrayIndex k with
      | Some m => if m <? n then (k, x) :: insertIndexed n key v rest
                  else (key, v) :: o
      | None => (key, v) :: o
      end
  end.

Definition jsSetProp (key : string) (v : JValue) (o : Obj) : Obj :=
  if String.eqb key "__proto__" then o
  else if hasKey key o then replaceProp key v o
  else match arrayIndex key with
       | Some n => insertIndexed n key v o
       | None => o ++ [(key, v)]
       end.

Definition namedOnly (o : Obj) : bool :=
  forallb (λ kv, match arrayIndex kv.1 with Some _ => false | None => true end) o.

(** Array indices above [lo] in ascending order, then the other keys. *)
Fixpoint jsOrderedFrom (lo : Z) (o : Obj) : bool :=
  match o with
  | [] => true
  | (k, x) :: rest =>
      match arrayIndex k with
      | Some n => (lo <? n) && jsOrderedFrom n rest
      | None => namedOnly o
      end
  end.

(** The order in which JavaScript holds the keys of an object. *)
Definition jsOrdered (o : Obj) : Prop := jsOrderedFrom (-1) o = true.

(** [ToBoolean] of a property read. *)
Definition truthy (v : option JValue) : bool :=
  match v with
  | None | Some JNull => false
  | Some (JBool value) => value
  | Some (JNum value) => negb (Qeq_bool value 0)
  | Some (JStr value) => negb (String.eqb value "")
  | Some (JArr _) | Some (JObj _) => true
  end.

(** ** Record Merger: the loop of source lines 107-117 *)

Record Colors : Type := {
  averageColor : string;
  dominantColor1 : string;
  dominantColor2 : string
}.

(** One pass of the body of [for (const key in token)]. *)
Definition mergeStep (colors : Colors) (newToken : Obj)
    (entry : string * JValue) : Obj :=
  let '(key, value) := entry in
  let newToken := setProp key value newToken in
  if String.eqb key "logoURI" then
    let newToken := setProp "averageColor" (JStr (averageColor colors)) newToken in
    let newToken := setProp "dominantColor1" (JStr (dominantColor1 colors)) newToken in
    setProp "dominantColor2" (JStr (dominantColor2 colors)) newToken
  else newToken.

Definition mergeColors (token : Obj) (colors : Colors) : Obj :=
  fold_left (mergeStep colors) token [].

(** The loop with JavaScript's placement of array-index keys. *)
Definition jsMergeStep (colors : Colors) (newToken : Obj)
    (entry : string * JValue) : Obj :=
  let '(key, value) := entry in
  let newToken := jsSetProp key value newToken in
  if String.eqb key "logoURI" then
    let newToken := jsSetProp "averageColor" (JStr (averageColor colors)) newToken in
    let newToken := jsSetProp "dominantColor1" (JStr (dominantColor1 colors)) newToken in
    jsSetProp "dominantColor2" (JStr (dominantColor2 colors)) newToken
  else newToken.

Definition jsMergeColors (token : Obj) (colors : Colors) : Obj :=
  fold_left (jsMergeStep colors) token [].

(** The same loop on a store of objects, where [token] and [newToken] are
    references: [const newToken = {}] allocates, [token[key]] reads the
    store and [newToken[key] = ...] writes it. *)
Abbreviation Store := (gmap positive Obj).

Definition storeRead (σ : Store) (ref : positive) (key : string) : option JValue :=
  match σ !! ref with
  | Some o => getProp o key
  | None => None
  end.

Definition storeWrite (ref : positive) (key : string) (v : JValue) (σ : Store) : Store :=
  alter (setProp key v) ref σ.

Definition mergeStepRef (colors : Colors) (token newToken : positive)
    (σ : Store) (key : string) : Store :=
  let σ := match storeRead σ token key with
           | Some value => storeWrite newToken key value σ
           | None => σ
           end in
  if String.eqb key "logoURI" then
    let σ := storeWrite newToken "averageColor" (JStr (averageColor colors)) σ in
    let σ := storeWrite newToken "dominantColor1" (JStr (dominantColor1 colors)) σ in
    storeWrite newToken "dominantColor2" (JStr (dominantColor2 colors)) σ
  else σ.

Definition mergeColorsRef (σ : Store) (token : positive) (colors : Colors)
    : Store * positive :=
  let newToken := fresh (dom σ) in
  let σ := <[newToken := []]> σ in
  let ks := match σ !! token with Some o => keys o | None => [] end in
  (fold_left (mergeStepRef colors token newToken) ks σ, newToken).

(** ** The world: files, console, collaborators *)

(** The parsed document: its array of token objects and the members next to
    it, which the script never touches. *)
Record TokenList : Type := {
  tokens : list Obj;       (* the array [tokenlist.tokens] *)
  siblings : Obj           (* the other members of the document *)
}.

(** What a file holds.  Reading fails on a missing file and parsing on
    anything but a token list; writing always succeeds. *)

Inductive FileData : Type :=
| Binary (data : list byte)         (* a Buffer written as it is *)
| JsonText (doc : TokenList)        (* JSON.stringify(doc, null, 4) *)
| HtmlText (shown : list Obj)       (* the preview of these tokens *)
| PlainText (text : string).        (* anything else *)

(** Console lines; the text of a line is plumbing and is not spelled out. *)
Inductive Line : Type :=
| ProcessingTokens
| Processing (symbol : option JValue) (position total : nat)
| Done
| FailedToProcessImage
| Completed
| ErrorDownloading (url : JValue) (error : Error)
| ErrorProcessingImage (error : Error)
| ErrorFatal (error : Error).

Record World : Type := {
  files : gmap string FileData;
  console : list Line
}.

(** What the collaborators answer while one token is processed. *)
Record Host : Type := {
  (* axios.get(url, {responseType: 'arraybuffer'}): response.data *)
  axios_get : JValue → Res (list byte);
  (* Date.now() *)
  Date_now : Z;
  (* ColorThief.getPalette(file, 2) on a file with these bytes:
     null or an array of [r, g, b] arrays *)
  getPalette : list byte → Res (option (list (list Z)));
  (* ColorThief.getColor(file): null or one [r, g, b] array *)
  getColor : list byte → Res (option (list Z))
}.

(** State and exceptions. *)
Definition M (A : Type) : Type := World → Res A * World.

#[export] Instance M_ret : MRet M := λ A a w, (Ok a, w).
#[export] Instance M_bind : MBind M := λ A B f m w,
  match m w with
  | (Ok a, w') => f a w'
  | (Throw e, w') => (Throw e, w')
  end.

Definition lift {A} (x : Res A) : M A := λ w, (x, w).

Definition try_catch {A} (body : M A) (handler : Error → M A) : M A := λ w,
  match body w with
  | (Ok a, w') => (Ok a, w')
  | (Throw e, w') => handler e w'
  end.

(** The world after one more console line. *)
Definition logged (l : Line) (w : World) : World :=
  {| files := files w; console := console w ++ [l] |}.

Definition console_log (l : Line) : M unit := λ w, (Ok tt, logged l w).

Definition fs_readFile (path : string) : M FileData := λ w,
  match files w !! path with
  | Some data => (Ok data, w)
  | None => (Throw (HostError "ENOENT"), w)
  end.

Definition fs_writeFile (path : string) (data : FileData) : M unit := λ w,
  (Ok tt, {| files := <[path := data]> (files w); console := console w |}).

Definition fs_unlink (path : string) : M unit := λ w,
  match files w !! path with
  | Some _ => (Ok tt, {| files := delete path (files w); console := console w |})
  | None => (Throw (HostError "ENOENT"), w)
  end.

Definition JSON_parse (data : FileData) : M TokenList :=
  match data with
  | JsonText doc => mret doc
  | _ => lift (Throw (HostError "SyntaxError"))
  end.

(** The library loads the image from the file it is given. *)
Definition ColorThief_load {A} (analyse : list byte → Res A) (file : string) : M A :=
  λ w, match files w !! file with
       | Some (Binary data) => (analyse data, w)
       | _ => (Throw (HostError "cannot load image"), w)
       end.

(** ** Image Fetcher: [downloadImage] (source lines 38-46) *)

Definition downloadImage (h : Host) (url : JValue) : M (option (list byte)) :=
  try_catch
    (response ← lift (axios_get h url);
     mret (Some response))
    (λ error,
       console_log (ErrorDownloading url error);;
       mret None).

(** ** Colour Extractor: [processImage] (source lines 48-89) *)

Definition fallbackColors : Colors :=
  {| averageColor := "#000000";
     dominantColor1 := "#000000";
     dominantColor2 := "#ffffff" |}.

(** [s.padStart(2, '0')] *)
Definition padStart2 (s : string) : string :=
  match s with
  | EmptyString => "00"
  | String c EmptyString => String "0" s
  | _ => s
  end.

Definition toHex (rgb : list Z) : string :=
  "#" +:+ String.concat "" (map (λ x, padStart2 (toString16 x)) rgb).

(** [`temp_${Date.now()}.png`] *)
Definition tempFileName (now : Z) : string :=
  "temp_" +:+ DecimalString.NilZero.string_of_int (Z.to_int now) +:+ ".png".

(** [x[0]] and the like on a value that may be [null]. *)
Definition readArray {A} (x : option A) : Res A :=
  match x with
  | Some a => Ok a
  | None => Throw TypeError
  end.

(** Source lines 67-80, after the temporary file is gone: the hex colours
    of the palette and of the average colour. *)
Definition paletteColors (palette : option (list (list Z)))
    (averageColor : option (list Z)) : Res Colors :=
  palette ← readArray palette;
  let dominantColor1 :=
    match palette !! 0%nat with
    | Some rgb => toHex rgb
    | None => "#000000"
    end in
  dominantColor2 ←
    match palette !! 1%nat with
    | Some rgb => mret (toHex rgb)
    | None => mixColors dominantColor1 "#ffffff" (1 # 10)
    end;
  averageColor ← readArray averageColor;
  mret {| averageColor := toHex averageColor;
          dominantColor1 := dominantColor1;
          dominantColor2 := dominantColor2 |}.

Definition processImage (h : Host) (imageBuffer : option (list byte)) : M Colors :=
  match imageBuffer with
  | None => mret fallbackColors
  | Some buffer =>
      try_catch
        (let tempFile := tempFileName (Date_now h) in
         fs_writeFile tempFile (Binary buffer);;
         palette ← ColorThief_load (getPalette h) tempFile;
         averageColor ← ColorThief_load (getColor h) tempFile;
         fs_unlink tempFile;;
         lift (paletteColors palette averageColor))
        (λ error,
           console_log (ErrorProcessingImage error);;
           mret fallbackColors)
  end.

(** ** Batch Driver: [processTokenlist] (source lines 91-140) *)

(** The body of the [for] loop at index [i]. *)
Definition processTokenAt (h : Host) (i : nat) (tokens : list Obj) : M (list Obj) :=
  match tokens !! i with
  | None => lift (Throw TypeError)
  | Some token =>
      if truthy (getProp token "logoURI") then
        console_log (Processing (getProp token "symbol") (i + 1) (length tokens));;
        imageBuffer ← downloadImage h (default JNull (getProp token "logoURI"));
        match imageBuffer with
        | Some buffer =>
            colors ← processImage h (Some buffer);
            let newToken := mergeColors token colors in
            console_log Done;;
            mret (<[i := newToken]> tokens)
        | None =>
            console_log FailedToProcessImage;;
            mret tokens
        end
      else mret tokens
  end.

(** [for (let i = 0; i < tokenlist.tokens.length; i++)], with [count]
    iterations left; [hosts i] is the environment while token [i] is
    processed. *)
Fixpoint forTokens (hosts : nat → Host) (count i : nat) (tokens : list Obj)
    : M (list Obj) :=
  match count with
  | O => mret tokens
  | S count' =>
      tokens' ← processTokenAt (hosts i) i tokens;
      forTokens hosts count' (S i) tokens'
  end.

(** [generateHtmlPreview(tokens)]: the preview document, kept as the list
    of tokens it shows (source lines 142-240 are one template). *)
Definition generateHtmlPreview (tokens : list Obj) : FileData := HtmlText tokens.

Definition tokenlistPath : string := "plyrapi.tokenlist.json".
Definition previewPath : string := "token_colors.html".

Definition processTokenlist (hosts : nat → Host) : M unit :=
  try_catch
    (tokenlistData ← fs_readFile tokenlistPath;
     tokenlist ← JSON_parse tokenlistData;
     console_log ProcessingTokens;;
     tokens' ← forTokens hosts (length (tokens tokenlist)) 0 (tokens tokenlist);
     let tokenlist := {| tokens := tokens'; siblings := siblings tokenlist |} in
     fs_writeFile tokenlistPath (JsonText tokenlist);;
     let html := generateHtmlPreview (tokens tokenlist) in
     fs_writeFile previewPath html;;
     console_log Completed)
    (λ error, console_log (ErrorFatal error)).

(** ** Records and runs in the words of the specification *)

Definition colorKeys : list string :=
  ["averageColor"; "dominantColor1"; "dominantColor2"].

Definition colorEntries (colors : Colors) : Obj :=
  [("averageColor", JStr (averageColor colors));
   ("dominantColor1", JStr (dominantColor1 colors));
   ("dominantColor2", JStr (dominantColor2 colors))].

(** The record with the three colour entries inserted immediately after the
    logo-reference key. *)
Fixpoint insertAfterLogo (colors : Colors) (t : Obj) : Obj :=
  match t with
  | [] => []
  | (k, v) :: rest =>
      if String.eqb k "logoURI" then (k, v) :: colorEntries colors ++ rest
      else (k, v) :: insertAfterLogo colors rest
  end.

(** A token record as the merge loop can copy it: unique keys, none of
    them ["__proto__"]. *)
Definition plainRecord (t : Obj) : Prop :=
  NoDup (keys t) ∧ "__proto__" ∉ keys t.

(** A token the loop does not replace: no truthy logo reference, or a
    download that fails. *)
Definition notReplaced (h : Host) (token : Obj) : Prop :=
  truthy (getProp token "logoURI") = false
  ∨ ∃ e, axios_get h (default JNull (getProp token "logoURI")) = Throw e.

(** ** The mixing arithmetic in binary64

    The channel expression of [mixColors] as JavaScript evaluates it, on
    IEEE doubles, to compare with the rational arithmetic of the model. *)

Definition float_of_channel (z : Z) : PrimFloat.float :=
  PrimFloat.of_uint63 (Uint63.of_Z z).

(** [rgb1.c * ratio + rgb2.c * (1 - ratio)], every operation rounded. *)
Definition mixedChannel64 (x1 x2 : Z) (ratio : PrimFloat.float) : PrimFloat.float :=
  PrimFloat.add
    (PrimFloat.mul (float_of_channel x1) ratio)
    (PrimFloat.mul (float_of_channel x2)
       (PrimFloat.sub (float_of_channel 1) ratio)).

(** The rational a finite double stands for. *)
Definition exactValue (x : PrimFloat.float) : option Q :=
  match FloatOps.Prim2SF x with
  | SpecFloat.S754_zero _ => Some 0%Q
  | SpecFloat.S754_finite s m e =>
      let v := if 0 <=? e then inject_Z (Z.pos m * 2 ^ e)
               else (Z.pos m # Pos.pow 2 (Z.to_pos (- e))) in
      Some (if s then (- v)%Q else v)
  | _ => None
  end.

(** [Math.round] of a double. *)
Definition Math_round64 (x : PrimFloat.float) : option Z :=
  Math_round <$> exactValue x.

Section Literals.
Import PrimFloat.
(** The double that the literal [0.1] denotes. *)
Definition tenth64 : float := 0x1.999999999999ap-4%float.
End Literals.

Definition sameRounding (x : option Z) (n : Z) : bool :=
  match x with
  | Some m => m =? n
  | None => false
  end.

Definition tenthAgrees (x : Z) : bool :=
  sameRounding (Math_round64 (mixedChannel64 x 255 tenth64))
    (Math_round (inject_Z x * (1 # 10) + inject_Z 255 * (1 - (1 # 10)))).

Definition endpointsAgree (x y : Z) : bool :=
  sameRounding (Math_round64 (mixedChannel64 x y (float_of_channel 1))) x
  && sameRounding (Math_round64 (mixedChannel64 x y (float_of_channel 0))) y.

(** ** A checker for the 256 channel values *)

Definition channelChecks (z : Z) : bool :=
  (parseInt16 (hexPair z) =? z)
  && forallb isHexDigit (list_ascii_of_string (hexPair z))
  && forallb isLowerHexDigit (list_ascii_of_string (hexPair z))
  && String.eqb (renderChannel z) (hexPair z)
  && String.eqb (padStart2 (toString16 z)) (hexPair z).

(** ** Sample colours, tokens, collaborators and worlds *)

Definition red : Rgb := {| r := 255; g := 0; b := 0 |}.
Definition white : Rgb := {| r := 255; g := 255; b := 255 |}.
Definition teal : Rgb := {| r := 0; g := 128; b := 129 |}.

Definition plyrToken : Obj :=
  [("symbol", JStr "PLYR"); ("logoURI", JStr "https://example.org/plyr.png");
   ("decimals", JNum 18)].

Definition bareToken : Obj := [("symbol", JStr "GAS"); ("decimals", JNum 18)].

Definition handAuthoredToken : Obj :=
  [("averageColor", JStr "#123456"); ("symbol", JStr "PLYR");
   ("logoURI", JStr "https://example.org/plyr.png")].


Definition someColors : Colors :=
  {| averageColor := "#ff0000";
     dominantColor1 := "#ff0000";
     dominantColor2 := "#ffe6e6" |}.

Definition plyrList : TokenList :=
  {| tokens := [bareToken; plyrToken];
     siblings := [("name", JStr "PLYR API"); ("version", JNum 1)] |}.


Definition emptyWorld : World := {| files := ∅; console := [] |}.

Definition plyrWorld : World :=
  {| files := {[ tokenlistPath := JsonText plyrList ]}; console := [] |}.

(** Three bytes that are no image. *)
Definition logoBytes : list byte := [x47; x49; x46]%byte.

(** A palette library that rejects the image. *)
Definition corruptHost : Host :=
  {| axios_get := λ _, Ok logoBytes;
     Date_now := 1700000000000;
     getPalette := λ _, Throw (HostError "unsupported image type");
     getColor := λ _, Throw (HostError "unsupported image type") |}.

(** The collaborators for a solid red logo. *)
Definition redHost : Host :=
  {| axios_get := λ _, Ok logoBytes;
     Date_now := 1700000000000;
     getPalette := λ _, Ok (Some [rgbArray red]);
     getColor := λ _, Ok (Some (rgbArray red)) |}.

(** No route to any logo. *)
Definition offlineHost : Host :=
  {| axios_get := λ _, Throw (HostError "ENOTFOUND");
     Date_now := 1700000000000;
     getPalette := λ _, Ok (Some [rgbArray red]);
     getColor := λ _, Ok (Some (rgbArray red)) |}.

(** ** The mixer on IEEE doubles

    [mixColors] as JavaScript evaluates it, to compare with the rational
    arithmetic of the model. *)

(** [Math.round(x).toString(16)] and the padding of [rgbToHex] on a double:
    the hexadecimal numeral of the rounded value (as engines print it for
    an integer below 2^53), and ["NaN"], ["Infinity"] or ["-Infinity"] for
    a double that is no number or infinite. *)
Definition renderChannel64 (x : PrimFloat.float) : string :=
  match exactValue x with
  | Some q => renderChannel (Math_round q)
  | None =>
      if PrimFloat.is_nan x then "NaN"
      else if PrimFloat.ltb x PrimFloat.zero then "-Infinity" else "Infinity"
  end.

Definition mixColors64 (color1 color2 : string) (ratio : PrimFloat.float)
    : Res string :=
  let rgb1 := hexToRgb color1 in
  let rgb2 := hexToRgb color2 in
  rgb1 ← readRgb rgb1;
  rgb2 ← readRgb rgb2;
  let mixed_r := mixedChannel64 (r rgb1) (r rgb2) ratio in
  let mixed_g := mixedChannel64 (g rgb1) (g rgb2) ratio in
  let mixed_b := mixedChannel64 (b rgb1) (b rgb2) ratio in
  mret ("#" +:+ String.concat "" (map renderChannel64 [mixed_r; mixed_g; mixed_b])).

Section MoreLiterals.
Import PrimFloat.
(** The double that the literal [0.5] denotes. *)
Definition half64 : float := 0x1p-1%float.
End MoreLiterals.

(** At the ratio 0.5 the channel expression is, on doubles, half the sum of
    the two channels (a check of one pair of channel values, by comparison
    of doubles), and half of such a sum is exact (a check of one sum). *)
Definition halfSumAt (x y : Z) : bool :=
  PrimFloat.Leibniz.eqb
    (mixedChannel64 x y half64)
    (PrimFloat.mul (float_of_channel (x + y)) half64).

Definition halfExactAt (s : Z) : bool :=
  match exactValue (PrimFloat.mul (float_of_channel s) half64) with
  | Some q => Qeq_bool q (s # 2)
  | None => false
  end.

(** A check of all 256 x 256 pairs of channel values. *)
Definition allChannelPairs (check : Z → Z → bool) : bool :=
  forallb (λ x, forallb (check x) (map Z.of_nat (seq 0 256)))
    (map Z.of_nat (seq 0 256)).

(** ** The mixer, the extractor and the batch in closed form

    Descriptions that the further properties compare the program with. *)

(** The letters [A] to [Z] in lowercase, every other character as it is. *)
Definition lowerAscii (c : ascii) : ascii :=
  let n := Z.of_N (N_of_ascii c) in
  if (65 <=? n) && (n <=? 90) then ascii_of_N (Z.to_N (n + 32)) else c.

Fixpoint toLowerCase (s : string) : string :=
  match s with
  | EmptyString => EmptyString
  | String c rest => String (lowerAscii c) (toLowerCase rest)
  end.

(** The canonical spelling of a colour argument: lowercase, with ['#']. *)
Definition canonical (s : string) : string :=
  match s with
  | String "#"%char _ => toLowerCase s
  | _ => String "#"%char (toLowerCase s)
  end.

(** An [[r, g, b]] array of channel values, as the palette library is
    documented to return it. *)
Definition validTriple (rgb : list Z) : Prop :=
  ∃ c, validRgb c ∧ rgb = rgbArray c.

(** The library answers with colours on these bytes, when it answers. *)
Definition libraryGivesColors (h : Host) (data : list byte) : Prop :=
  (∀ palette, getPalette h data = Ok (Some palette) → Forall validTriple palette)
  ∧ (∀ average, getColor h data = Ok (Some average) → validTriple average).

Definition validColors (colors : Colors) : Prop :=
  isColorString (averageColor colors) = true
  ∧ isColorString (dominantColor1 colors) = true
  ∧ isColorString (dominantColor2 colors) = true.

(** The colours [processImage] returns for these bytes, read off the
    answers of the library. *)
Definition colorsOf (h : Host) (data : list byte) : Colors :=
  match getPalette h data, getColor h data with
  | Ok palette, Ok average =>
      match paletteColors palette average with
      | Ok colors => colors
      | Throw _ => fallbackColors
      end
  | _, _ => fallbackColors
  end.


(** The record the batch writes for a token. *)
Definition tokenResult (h : Host) (token : Obj) : Obj :=
  if truthy (getProp token "logoURI") then
    match axios_get h (default JNull (getProp token "logoURI")) with
    | Ok data => mergeColors token (colorsOf h data)
    | Throw _ => token
    end
  else token.


(** The names of the temporary files of the first [count] tokens. *)
Definition tempFiles (hosts : nat → Host) (count : nat) : list string :=
  map (λ i, tempFileName (Date_now (hosts i))) (seq 0 count).

Definition isColorKey (key : string) : bool :=
  existsb (String.eqb key) colorKeys.

(** The fields of a record that are no colour fields, in their order. *)
Definition otherFields (t : Obj) : Obj :=
  List.filter (λ kv, negb (isColorKey kv.1)) t.

(** The value of a colour field after the merge: the one stored behind the
    logo key if there is one, else the computed colour. *)
Definition storedOr (post : Obj) (key : string) (computed : string) : JValue :=
  default (JStr computed) (getProp post key).

Definition mergedColorEntries (post : Obj) (colors : Colors) : Obj :=
  [("averageColor", storedOr post "averageColor" (averageColor colors));
   ("dominantColor1", storedOr post "dominantColor1" (dominantColor1 colors));
   ("dominantColor2", storedOr post "dominantColor2" (dominantColor2 colors))].

(** ** More sample tokens, collaborators and worlds *)

(** A record with one colour stored behind the logo key and not next to
    it. *)
Definition scatteredToken : Obj :=
  [("symbol", JStr "PLYR"); ("logoURI", JStr "https://example.org/plyr.png");
   ("decimals", JNum 18); ("dominantColor2", JStr "#123456")].

(** A record with array-index keys, in the order JavaScript holds them. *)
Definition indexedToken : Obj :=
  [("7", JNull); ("42", JNull); ("logoURI", JStr "https://example.org/plyr.png");
   ("symbol", JStr "PLYR")].

(** The collaborators for a logo in two colours on white. *)
Definition twoToneHost : Host :=
  {| axios_get := λ _, Ok logoBytes;
     Date_now := 1700000000000;
     getPalette := λ _, Ok (Some [rgbArray red; rgbArray teal]);
     getColor := λ _, Ok (Some (rgbArray white)) |}.

(** A palette library that answers with a channel out of range. *)
Definition overflowHost : Host :=
  {| axios_get := λ _, Ok logoBytes;
     Date_now := 1700000000000;
     getPalette := λ _, Ok (Some [[256; 0; 0]]);
     getColor := λ _, Ok (Some (rgbArray red)) |}.

(** A directory with the token list and a file of the user. *)
Definition notesWorld : World :=
  {| files := {[ tokenlistPath := JsonText plyrList;
                 "notes.txt" := PlainText "keep" ]};
     console := [] |}.


(** * Properties *)

(** ** The model at work *)

Example mix_towards_white : mixColors "#000000" "#ffffff" (1 # 10) = Ok "#e6e6e6".
Proof. vm_compute. reflexivity. Qed.

Example mix_any_case : mixColors "FF0000" "#00fF00" (1 # 2) = Ok "#808000".
Proof. vm_compute. reflexivity. Qed.

Example mix_uppercase_lowered : mixColors "#FF0000" "#000000" 1 = Ok "#ff0000".
Proof. vm_compute. reflexivity. Qed.

Example mix_five_digits : mixColors "#12345" "#00ff00" (1 # 2) = Throw TypeError.
Proof. vm_compute. reflexivity. Qed.

Example mix_ratio_two : mixColors "#000000" "#ffffff" 2 = Ok "#-ff-ff-ff".
Proof. vm_compute. reflexivity. Qed.

Example mix_ratio_negative : mixColors "#000000" "#ffffff" (-1 # 100) = Ok "#102102102".
Proof. vm_compute. reflexivity. Qed.

Example merge_fresh_token :
  mergeColors plyrToken someColors
  = [("symbol", JStr "PLYR"); ("logoURI", JStr "https://example.org/plyr.png");
     ("averageColor", JStr "#ff0000"); ("dominantColor1", JStr "#ff0000");
     ("dominantColor2", JStr "#ffe6e6"); ("decimals", JNum 18)].
Proof. reflexivity. Qed.

Example merge_drops_proto_key :
  mergeColors [("logoURI", JStr "u"); ("__proto__", JNull); ("name", JStr "n")]
    fallbackColors
  = [("logoURI", JStr "u"); ("averageColor", JStr "#000000");
     ("dominantColor1", JStr "#000000"); ("dominantColor2", JStr "#ffffff");
     ("name", JStr "n")].
Proof. reflexivity. Qed.

Example merge_stored_key_behind_logo :
  mergeColors [("logoURI", JStr "u"); ("name", JStr "n"); ("averageColor", JStr "#0a0b0c")]
    someColors
  = [("logoURI", JStr "u"); ("averageColor", JStr "#0a0b0c");
     ("dominantColor1", JStr "#ff0000"); ("dominantColor2", JStr "#ffe6e6");
     ("name", JStr "n")].
Proof. reflexivity. Qed.

Example array_indices :
  map arrayIndex ["0"; "7"; "42"; "4294967294"; "4294967295"; "07"; "-1"; "1.5"; "logoURI"]
  = [Some 0; Some 7; Some 42; Some 4294967294; None; None; None; None; None].
Proof. vm_compute. reflexivity. Qed.

Example merge_with_array_indices :
  jsMergeColors [("7", JNull); ("42", JNull); ("logoURI", JStr "u"); ("name", JStr "n")]
    fallbackColors
  = [("7", JNull); ("42", JNull); ("logoURI", JStr "u");
     ("averageColor", JStr "#000000"); ("dominantColor1", JStr "#000000");
     ("dominantColor2", JStr "#ffffff"); ("name", JStr "n")].
Proof. vm_compute. reflexivity. Qed.

Example extract_solid_red :
  (processImage redHost (Some logoBytes) emptyWorld).1
  = Ok {| averageColor := "#ff0000";
          dominantColor1 := "#ff0000";
          dominantColor2 := "#ffe6e6" |}.
Proof. vm_compute. reflexivity. Qed.

Example run_console :
  console (processTokenlist (λ _, redHost) plyrWorld).2
  = [ProcessingTokens; Processing (Some (JStr "PLYR")) 2 2; Done; Completed].
Proof. vm_compute. reflexivity. Qed.

Example run_console_offline :
  console (processTokenlist (λ _, offlineHost) plyrWorld).2
  = [ProcessingTokens; Processing (Some (JStr "PLYR")) 2 2;
     ErrorDownloading (JStr "https://example.org/plyr.png") (HostError "ENOTFOUND");
     FailedToProcessImage; Completed].
Proof. vm_compute. reflexivity. Qed.

(** ** Hexadecimal rendering of a channel *)

Lemma channel_enum (z : Z) :
  channel z → In z (map Z.of_nat (seq 0 256)).
Proof.
  intros [Hlo Hhi]. apply in_map_iff. exists (Z.to_nat z). split; [lia|].
  apply in_seq. lia.
Qed.

Lemma channelChecks_all : forallb channelChecks (map Z.of_nat (seq 0 256)) = true.
Proof. vm_compute. reflexivity. Qed.

Lemma channelChecks_ok (z : Z) : channel z → channelChecks z = true.
Proof.
  intros Hz. pose proof channelChecks_all as Hall.
  rewrite forallb_forall in Hall. apply Hall, channel_enum, Hz.
Qed.

(** Each conjunct of [channelChecks], for a channel [z]. *)
Ltac channel_checks z Hz :=
  let H := fresh "H" in
  pose proof (channelChecks_ok z Hz) as H; unfold channelChecks in H;
  repeat (apply andb_prop in H; destruct H as [H ?]).

Lemma parseInt16_hexPair (z : Z) : channel z → parseInt16 (hexPair z) = z.
Proof. intros Hz. channel_checks z Hz. lia. Qed.

Lemma isHexDigit_hexPair (z : Z) :
  channel z → forallb isHexDigit (list_ascii_of_string (hexPair z)) = true.
Proof. intros Hz. channel_checks z Hz. assumption. Qed.

Lemma isLowerHexDigit_hexPair (z : Z) :
  channel z → forallb isLowerHexDigit (list_ascii_of_string (hexPair z)) = true.
Proof. intros Hz. channel_checks z Hz. assumption. Qed.

Lemma renderChannel_hexPair (z : Z) : channel z → renderChannel z = hexPair z.
Proof. intros Hz. channel_checks z Hz. by apply String.eqb_eq. Qed.

Lemma padStart2_hexPair (z : Z) : channel z → padStart2 (toString16 z) = hexPair z.
Proof. intros Hz. channel_checks z Hz. by apply String.eqb_eq. Qed.

(** A canonical colour string decodes to its colour. *)
Lemma hexToRgb_colorString (c : Rgb) : validRgb c → hexToRgb (colorString c) = Some c.
Proof.
  destruct c as [cr cg cb]. intros (Hr & Hg & Hb). simpl in Hr, Hg, Hb.
  pose proof (isHexDigit_hexPair cr Hr) as Dr.
  pose proof (isHexDigit_hexPair cg Hg) as Dg.
  pose proof (isHexDigit_hexPair cb Hb) as Db.
  pose proof (parseInt16_hexPair cr Hr) as Pr.
  pose proof (parseInt16_hexPair cg Hg) as Pg.
  pose proof (parseInt16_hexPair cb Hb) as Pb.
  unfold hexToRgb, hexPatternExec, colorString, hexPair in *. simpl in *.
  apply andb_prop in Dr as [Dr1 Dr2]. apply andb_prop in Dr2 as [Dr2 _].
  apply andb_prop in Dg as [Dg1 Dg2]. apply andb_prop in Dg2 as [Dg2 _].
  apply andb_prop in Db as [Db1 Db2]. apply andb_prop in Db2 as [Db2 _].
  rewrite Dr1, Dr2, Dg1, Dg2, Db1, Db2. simpl.
  unfold parseInt16 in *. simpl in *. by rewrite Pr, Pg, Pb.
Qed.

Lemma isColorString_colorString (c : Rgb) :
  validRgb c → isColorString (colorString c) = true.
Proof.
  destruct c as [cr cg cb]. intros (Hr & Hg & Hb). simpl in Hr, Hg, Hb.
  pose proof (isLowerHexDigit_hexPair cr Hr) as Dr.
  pose proof (isLowerHexDigit_hexPair cg Hg) as Dg.
  pose proof (isLowerHexDigit_hexPair cb Hb) as Db.
  unfold isColorString, colorString, hexPair in *. simpl in *.
  apply andb_prop in Dr as [Dr1 Dr2]. apply andb_prop in Dr2 as [Dr2 _].
  apply andb_prop in Dg as [Dg1 Dg2]. apply andb_prop in Dg2 as [Dg2 _].
  apply andb_prop in Db as [Db1 Db2]. apply andb_prop in Db2 as [Db2 _].
  by rewrite Dr1, Dr2, Dg1, Dg2, Db1, Db2.
Qed.

(** ** Rounding and interpolation *)

Lemma Math_round_comp (x y : Q) : (x == y)%Q → Math_round x = Math_round y.
Proof. intros E. unfold Math_round. apply Qfloor_comp. by rewrite E. Qed.

Lemma Math_round_bounds (x : Q) :
  (x - (1 # 2) < inject_Z (Math_round x) <= x + (1 # 2))%Q.
Proof.
  unfold Math_round. split.
  - pose proof (Qlt_floor (x + (1 # 2))) as H.
    rewrite inject_Z_plus in H. change (inject_Z 1) with 1%Q in H. lra.
  - apply Qfloor_le.
Qed.

Lemma Math_round_nearest (x : Q) : nearestInteger x (Math_round x).
Proof.
  unfold nearestInteger. destruct (Math_round_bounds x) as [H1 H2].
  apply Qabs_Qle_condition. split; lra.
Qed.

Lemma Math_round_inject_Z (n : Z) : Math_round (inject_Z n) = n.
Proof.
  destruct (Math_round_bounds (inject_Z n)) as [H1 H2].
  assert (L : (inject_Z (Math_round (inject_Z n)) < inject_Z (n + 1))%Q).
  { rewrite inject_Z_plus. change (inject_Z 1) with 1%Q. lra. }
  assert (U : (inject_Z n + inject_Z (-1) < inject_Z (Math_round (inject_Z n)))%Q).
  { change (inject_Z (-1)) with (-1 # 1)%Q. lra. }
  rewrite <- inject_Z_plus in U.
  rewrite <- Zlt_Qlt in L, U. lia.
Qed.

(** For a ratio in [0,1] the mixed channel stays a channel, so the
    rendering of [rgbToHex] has exactly two digits. *)
Lemma mixed_channel (x1 x2 : Z) (ratio : Q) :
  channel x1 → channel x2 → (0 <= ratio <= 1)%Q →
  channel (Math_round (inject_Z x1 * ratio + inject_Z x2 * (1 - ratio))).
Proof.
  intros [L1 U1] [L2 U2] [Lr Ur].
  set (x := (inject_Z x1 * ratio + inject_Z x2 * (1 - ratio))%Q).
  destruct (Math_round_bounds x) as [H1 H2].
  rewrite Zle_Qle in L1, U1, L2, U2.
  change (inject_Z 0) with 0%Q in L1, L2.
  change (inject_Z 255) with (255 # 1)%Q in U1, U2.
  assert (A1 : (0 <= inject_Z x1 * ratio)%Q) by (apply Qmult_le_0_compat; lra).
  assert (A2 : (0 <= inject_Z x2 * (1 - ratio))%Q) by (apply Qmult_le_0_compat; lra).
  assert (B1 : (0 <= ((255 # 1) - inject_Z x1) * ratio)%Q) by (apply Qmult_le_0_compat; lra).
  assert (B2 : (0 <= ((255 # 1) - inject_Z x2) * (1 - ratio))%Q) by (apply Qmult_le_0_compat; lra).
  assert (X0 : (0 <= x)%Q) by (unfold x; lra).
  assert (X1 : (x <= 255 # 1)%Q) by (unfold x; lra).
  assert (L : (inject_Z (-1) < inject_Z (Math_round x))%Q).
  { change (inject_Z (-1)) with (-1 # 1)%Q. lra. }
  assert (U : (inject_Z (Math_round x) < inject_Z 256)%Q).
  { change (inject_Z 256) with (256 # 1)%Q. lra. }
  rewrite <- Zlt_Qlt in L, U. unfold channel. lia.
Qed.

Lemma clamp255_channel (n : Z) : channel n → clamp255 n = n.
Proof. unfold channel, clamp255. lia. Qed.

Lemma interpolate_source (x1 x2 : Z) (ratio : Q) :
  (inject_Z x1 * ratio + inject_Z x2 * (1 - ratio) == interpolate ratio x1 x2)%Q.
Proof. unfold interpolate. ring. Qed.

(** One channel: the source computes the clamped, rounded interpolation. *)
Lemma renderChannel_mixChannel (x1 x2 : Z) (ratio : Q) :
  channel x1 → channel x2 → (0 <= ratio <= 1)%Q →
  renderChannel (Math_round (inject_Z x1 * ratio + inject_Z x2 * (1 - ratio)))
  = hexPair (mixChannel ratio x1 x2)
  ∧ channel (mixChannel ratio x1 x2)
  ∧ nearestInteger (interpolate ratio x1 x2) (mixChannel ratio x1 x2).
Proof.
  intros H1 H2 Hr. pose proof (mixed_channel x1 x2 ratio H1 H2 Hr) as Hc.
  rewrite (Math_round_comp _ _ (interpolate_source x1 x2 ratio)) in *.
  unfold mixChannel. rewrite (clamp255_channel _ Hc).
  split; [by apply renderChannel_hexPair|]. split; [done|].
  apply Math_round_nearest.
Qed.

(** ** Binary64 against the rational model *)

Lemma sameRounding_eq (x : option Z) (n : Z) : sameRounding x n = true → x = Some n.
Proof. destruct x as [m|]; cbn; [|done]. intros H. f_equal. lia. Qed.

Lemma tenthAgrees_all : forallb tenthAgrees (map Z.of_nat (seq 0 256)) = true.
Proof. vm_compute. reflexivity. Qed.

Lemma endpointsAgree_all :
  forallb (λ x, forallb (endpointsAgree x) (map Z.of_nat (seq 0 256)))
    (map Z.of_nat (seq 0 256)) = true.
Proof. vm_compute. reflexivity. Qed.

(** At the one call of the program, [mixColors(dominantColor1, '#ffffff',
    0.1)], the doubles round to the integer that the rationals give, for
    every channel value. *)
Lemma binary64_tenth (x : Z) :
  channel x →
  Math_round64 (mixedChannel64 x 255 tenth64)
  = Some (Math_round (inject_Z x * (1 # 10) + inject_Z 255 * (1 - (1 # 10)))).
Proof.
  intros Hx. apply sameRounding_eq. pose proof tenthAgrees_all as Hall.
  rewrite forallb_forall in Hall. apply (Hall x), channel_enum, Hx.
Qed.

(** At ratio 1 and at ratio 0 the doubles give back the first and the
    second channel, for all pairs of channel values. *)
Lemma binary64_endpoints (x y : Z) :
  channel x → channel y →
  Math_round64 (mixedChannel64 x y (float_of_channel 1)) = Some x
  ∧ Math_round64 (mixedChannel64 x y (float_of_channel 0)) = Some y.
Proof.
  intros Hx Hy. pose proof endpointsAgree_all as Hall.
  rewrite forallb_forall in Hall. specialize (Hall x (channel_enum x Hx)).
  rewrite forallb_forall in Hall. specialize (Hall y (channel_enum y Hy)).
  apply andb_prop in Hall as [H1 H0]. split; by apply sameRounding_eq.
Qed.

(** ** The hexadecimal pattern *)

Lemma isHexDigit_existsb (c : ascii) :
  isHexDigit c
  = existsb (Ascii.eqb c) (list_ascii_of_string "0123456789abcdefABCDEF").
Proof. destruct c as [[] [] [] [] [] [] [] []]; reflexivity. Qed.

Lemma isHexDigit_HexDigit (c : ascii) : isHexDigit c = true ↔ HexDigit c.
Proof.
  rewrite isHexDigit_existsb, existsb_exists. unfold HexDigit. split.
  - intros (x & Hin & Heq). apply Ascii.eqb_eq in Heq. by subst.
  - intros Hin. exists c. split; [done | apply Ascii.eqb_refl].
Qed.

Lemma isHexDigit_not_hash (c : ascii) (rest : string) :
  isHexDigit c = true →
  match String c rest with
  | String "#"%char rest' => rest'
  | _ => String c rest
  end = String c rest.
Proof.
  destruct c as [[] [] [] [] [] [] [] []]; intros H;
    first [ reflexivity | vm_compute in H; discriminate H ].
Qed.

Lemma digitValue_range (c : ascii) :
  isHexDigit c = true → 0 <= digitValue c <= 15.
Proof.
  destruct c as [[] [] [] [] [] [] [] []]; intros H;
    first [ vm_compute; split; discriminate | vm_compute in H; discriminate H ].
Qed.

(** The pattern of the source accepts exactly the strings of six
    hexadecimal digits with an optional leading ['#']. *)
Lemma hexPatternExec_matches (s : string) :
  is_Some (hexPatternExec s) ↔ matchesHexPattern s.
Proof.
  split.
  - intros [[[g1 g2] g3] H]. unfold hexPatternExec in H.
    set (digits := match s with String "#"%char rest => rest | _ => s end) in H.
    assert (Hs : s = digits ∨ s = String "#"%char digits).
    { subst digits. destruct s as [|c rest]; [by left|].
      destruct c as [[] [] [] [] [] [] [] []]; auto. }
    destruct digits as [|c1 [|c2 [|c3 [|c4 [|c5 [|c6 [|c7 tl]]]]]]]; try discriminate.
    destruct (forallb isHexDigit [c1; c2; c3; c4; c5; c6]) eqn:E; [|discriminate].
    exists [c1; c2; c3; c4; c5; c6]. split; [done|]. split; [|exact Hs].
    rewrite forallb_forall in E. apply List.Forall_forall. intros c Hc.
    apply isHexDigit_HexDigit, E, Hc.
  - intros (ds & Hlen & Hds & Hs).
    destruct ds as [|c1 [|c2 [|c3 [|c4 [|c5 [|c6 [|c7 tl]]]]]]]; try discriminate.
    assert (E : forallb isHexDigit [c1; c2; c3; c4; c5; c6] = true).
    { apply forallb_forall. intros c Hc. apply isHexDigit_HexDigit.
      rewrite List.Forall_forall in Hds. by apply Hds. }
    assert (E1 : isHexDigit c1 = true) by (simpl in E; by apply andb_prop in E as [? _]).
    unfold hexPatternExec. destruct Hs as [-> | ->].
    + cbn [string_of_list_ascii]. rewrite (isHexDigit_not_hash c1 _ E1), E. by eexists.
    + cbn [string_of_list_ascii]. rewrite E. by eexists.
Qed.

Lemma hexToRgb_None (s : string) : ¬ matchesHexPattern s → hexToRgb s = None.
Proof.
  intros Hn. unfold hexToRgb. destruct (hexPatternExec s) as [[[g1 g2] g3]|] eqn:E; [|done].
  exfalso. apply Hn, hexPatternExec_matches. by eexists.
Qed.

Lemma hexToRgb_Some (s : string) :
  matchesHexPattern s → ∃ c, hexToRgb s = Some c ∧ validRgb c.
Proof.
  intros Hm. apply hexPatternExec_matches in Hm as [[[g1 g2] g3] H].
  unfold hexToRgb. rewrite H. eexists. split; [done|].
  unfold hexPatternExec in H.
  destruct (match s with String "#"%char rest => rest | _ => s end)
    as [|c1 [|c2 [|c3 [|c4 [|c5 [|c6 [|c7 tl]]]]]]]; try discriminate.
  destruct (forallb isHexDigit [c1; c2; c3; c4; c5; c6]) eqn:E; [|discriminate].
  injection H as <- <- <-. simpl in E.
  repeat (apply andb_prop in E; destruct E as [? E]).
  repeat match goal with
         | D : isHexDigit _ = true |- _ => apply digitValue_range in D
         end.
  unfold validRgb, channel, parseInt16. simpl. lia.
Qed.

(** ** Colour Mixer *)

Lemma concat_hexPairs (x y z : Z) :
  "#" +:+ String.concat "" [hexPair x; hexPair y; hexPair z]
  = colorString {| r := x; g := y; b := z |}.
Proof. reflexivity. Qed.

Lemma mixColors_channels (c1 c2 out : Rgb) (ratio : Q) :
  validRgb c1 → validRgb c2 → validRgb out →
  Math_round (inject_Z (r c1) * ratio + inject_Z (r c2) * (1 - ratio)) = r out →
  Math_round (inject_Z (g c1) * ratio + inject_Z (g c2) * (1 - ratio)) = g out →
  Math_round (inject_Z (b c1) * ratio + inject_Z (b c2) * (1 - ratio)) = b out →
  mixColors (colorString c1) (colorString c2) ratio = Ok (colorString out).
Proof.
  intros V1 V2 (Vr & Vg & Vb) Er Eg Eb. unfold mixColors.
  rewrite (hexToRgb_colorString c1 V1), (hexToRgb_colorString c2 V2).
  cbn [readRgb mbind Res_bind mret Res_ret]. unfold rgbToHex. cbn [map].
  rewrite Er, Eg, Eb.
  rewrite (renderChannel_hexPair _ Vr), (renderChannel_hexPair _ Vg),
    (renderChannel_hexPair _ Vb).
  rewrite concat_hexPairs. by destruct out.
Qed.

Lemma mixColors_mixSpec (c1 c2 : Rgb) (ratio : Q) :
  validRgb c1 → validRgb c2 → (0 <= ratio <= 1)%Q →
  mixColors (colorString c1) (colorString c2) ratio
  = Ok (colorString (mixSpec c1 c2 ratio))
  ∧ validRgb (mixSpec c1 c2 ratio).
Proof.
  intros V1 V2 Hr.
  destruct V1 as (R1 & G1 & B1) eqn:EV1. destruct V2 as (R2 & G2 & B2) eqn:EV2.
  clear EV1 EV2.
  destruct (renderChannel_mixChannel _ _ ratio R1 R2 Hr) as (_ & Cr & _).
  destruct (renderChannel_mixChannel _ _ ratio G1 G2 Hr) as (_ & Cg & _).
  destruct (renderChannel_mixChannel _ _ ratio B1 B2 Hr) as (_ & Cb & _).
  assert (Vout : validRgb (mixSpec c1 c2 ratio)) by done.
  split; [|done].
  apply mixColors_channels; [done | done | done | | | ]; simpl; unfold mixChannel.
  - rewrite clamp255_channel; [apply Math_round_comp, interpolate_source|].
    rewrite <- (Math_round_comp _ _ (interpolate_source _ _ _)). by apply mixed_channel.
  - rewrite clamp255_channel; [apply Math_round_comp, interpolate_source|].
    rewrite <- (Math_round_comp _ _ (interpolate_source _ _ _)). by apply mixed_channel.
  - rewrite clamp255_channel; [apply Math_round_comp, interpolate_source|].
    rewrite <- (Math_round_comp _ _ (interpolate_source _ _ _)). by apply mixed_channel.
Qed.



(** C6. For valid colours [a] and [b]: [mix(a,b,1) = a], [mix(a,b,0) = b],
    and [mix(a,a,ratio) = a] for every ratio in [0,1]. *)
Theorem mixColors_identities (a b : Rgb) :
  validRgb a → validRgb b →
  mixColors (colorString a) (colorString b) 1 = Ok (colorString a)
  ∧ mixColors (colorString a) (colorString b) 0 = Ok (colorString b)
  ∧ ∀ ratio : Q, (0 <= ratio <= 1)%Q →
      mixColors (colorString a) (colorString a) ratio = Ok (colorString a).
Proof.
  intros Va Vb. repeat split.
  - apply mixColors_channels; try done;
      (etransitivity; [apply Math_round_comp | apply Math_round_inject_Z]); ring.
  - apply mixColors_channels; try done;
      (etransitivity; [apply Math_round_comp | apply Math_round_inject_Z]); ring.
  - intros ratio _. apply mixColors_channels; try done;
      (etransitivity; [apply Math_round_comp | apply Math_round_inject_Z]); ring.
Qed.

Lemma mixColors_identities_witness :
  validRgb teal ∧ validRgb red
  ∧ mixColors (colorString teal) (colorString red) 1 = Ok (colorString teal)
  ∧ mixColors (colorString teal) (colorString red) 0 = Ok (colorString red)
  ∧ mixColors (colorString teal) (colorString teal) (1 # 3) = Ok (colorString teal).
Proof.
  assert (V1 : validRgb teal) by (unfold validRgb, channel; simpl; lia).
  assert (V2 : validRgb red) by (unfold validRgb, channel; simpl; lia).
  assert (Hr : (0 <= 1 # 3 <= 1)%Q) by (unfold Qle; simpl; lia).
  destruct (mixColors_identities teal red V1 V2) as (H1 & H0 & Hsame).
  split; [exact V1|]. split; [exact V2|]. split; [exact H1|]. split; [exact H0|].
  exact (Hsame (1 # 3) Hr).
Defined.

(** C9. When either colour argument does not match the pattern of six
    hexadecimal digits with an optional leading ['#'], [mixColors] returns
    no colour: it throws (the [TypeError] of reading [.r] on [null]). *)
Theorem mixColors_malformed_throws (color1 color2 : string) (ratio : Q) :
  ¬ matchesHexPattern color1 ∨ ¬ matchesHexPattern color2 →
  mixColors color1 color2 ratio = Throw TypeError.
Proof.
  intros [H | H]; unfold mixColors.
  - by rewrite (hexToRgb_None _ H).
  - rewrite (hexToRgb_None _ H). by destruct (hexToRgb color1).
Qed.

(** Conversely, two strings that match the pattern always yield a colour. *)
Lemma mixColors_wellformed_returns (color1 color2 : string) (ratio : Q) :
  matchesHexPattern color1 → matchesHexPattern color2 →
  ∃ mixed, mixColors color1 color2 ratio = Ok mixed.
Proof.
  intros H1 H2. unfold mixColors.
  destruct (hexToRgb_Some _ H1) as (c1 & -> & _).
  destruct (hexToRgb_Some _ H2) as (c2 & -> & _).
  by eexists.
Qed.

Lemma mixColors_malformed_throws_witness :
  (¬ matchesHexPattern "#12345" ∨ ¬ matchesHexPattern "#ffffff")
  ∧ mixColors "#12345" "#ffffff" (1 # 2) = Throw TypeError.
Proof.
  assert (H : ¬ matchesHexPattern "#12345").
  { intros Hm. apply hexPatternExec_matches in Hm as [x Hx]. vm_compute in Hx.
    discriminate Hx. }
  split; [left; exact H|].
  exact (mixColors_malformed_throws "#12345" "#ffffff" (1 # 2) (or_introl H)).
Defined.

(** ** Objects *)

Lemma keys_app (o1 o2 : Obj) : keys (o1 ++ o2) = keys o1 ++ keys o2.
Proof. apply map_app. Qed.

Lemma hasKey_true (k : string) (o : Obj) : hasKey k o = true ↔ k ∈ keys o.
Proof.
  unfold hasKey. rewrite existsb_exists. split.
  - intros (x & Hin & Heq). apply String.eqb_eq in Heq. subst x.
    by apply list_elem_of_In.
  - intros Hin. exists k. split; [by apply list_elem_of_In | apply String.eqb_refl].
Qed.

Lemma hasKey_false (k : string) (o : Obj) : hasKey k o = false ↔ k ∉ keys o.
Proof. rewrite <- hasKey_true. by destruct (hasKey k o). Qed.

Lemma replaceProp_app_r (k : string) (v : JValue) (pre l : Obj) :
  k ∉ keys pre → replaceProp k v (pre ++ l) = pre ++ replaceProp k v l.
Proof.
  induction pre as [|[k' x] pre IH]; intros Hk; [done|].
  cbn [keys map fst] in Hk. apply not_elem_of_cons in Hk as [Hne Hk].
  cbn. destruct (String.eqb_spec k' k) as [->|_]; [done|].
  f_equal. by apply IH.
Qed.

Lemma setProp_app_r (k : string) (v : JValue) (pre l : Obj) :
  k ∉ keys pre → setProp k v (pre ++ l) = pre ++ setProp k v l.
Proof.
  intros Hk. unfold setProp. destruct (String.eqb k "__proto__"); [done|].
  destruct (hasKey k l) eqn:El.
  - assert (E : hasKey k (pre ++ l) = true).
    { apply hasKey_true. rewrite keys_app. apply elem_of_app. right.
      by apply hasKey_true. }
    rewrite E. by apply replaceProp_app_r.
  - assert (E : hasKey k (pre ++ l) = false).
    { apply hasKey_false. rewrite keys_app. intros [?|?]%elem_of_app; [done|].
      by apply hasKey_false in El. }
    rewrite E. by rewrite app_assoc.
Qed.

Lemma setProp_new (k : string) (v : JValue) (o : Obj) :
  k ≠ "__proto__" → k ∉ keys o → setProp k v o = o ++ [(k, v)].
Proof.
  intros Hp Hk. unfold setProp.
  destruct (String.eqb_spec k "__proto__") as [->|_]; [done|].
  by apply hasKey_false in Hk as ->.
Qed.

(** ** Array-index keys in the merge loop *)

Lemma jsSetProp_named (key : string) (v : JValue) (o : Obj) :
  arrayIndex key = None → jsSetProp key v o = setProp key v o.
Proof. intros E. unfold jsSetProp, setProp. by rewrite E. Qed.

Lemma jsMergeStep_named (colors : Colors) (acc : Obj) (k : string) (v : JValue) :
  arrayIndex k = None → jsMergeStep colors acc (k, v) = mergeStep colors acc (k, v).
Proof.
  intros E. unfold jsMergeStep, mergeStep. rewrite (jsSetProp_named _ _ _ E).
  destruct (String.eqb k "logoURI"); [|done].
  by rewrite !jsSetProp_named.
Qed.

Lemma fold_jsMergeStep_named (colors : Colors) (t acc : Obj) :
  namedOnly t = true →
  fold_left (jsMergeStep colors) t acc = fold_left (mergeStep colors) t acc.
Proof.
  revert acc. induction t as [|[k v] t IH]; intros acc Hn; [done|].
  cbn [namedOnly forallb fst] in Hn. apply andb_prop in Hn as [Hk Hn].
  cbn [fold_left]. rewrite jsMergeStep_named; [by apply IH|].
  by destruct (arrayIndex k).
Qed.

Lemma insertIndexed_end (n : Z) (key : string) (v : JValue) (o : Obj) :
  Forall (λ kv, ∃ m, arrayIndex kv.1 = Some m ∧ m < n) o →
  insertIndexed n key v o = o ++ [(key, v)].
Proof.
  induction 1 as [|[k x] o (m & Em & Hm) _ IH]; [done|].
  cbn [insertIndexed app fst] in *. rewrite Em.
  destruct (Z.ltb_spec m n); [by rewrite IH | lia].
Qed.

Lemma jsMergeStep_indexed (colors : Colors) (acc : Obj) (k : string) (v : JValue) (n : Z) :
  arrayIndex k = Some n →
  Forall (λ kv, ∃ m, arrayIndex kv.1 = Some m ∧ m < n) acc →
  jsMergeStep colors acc (k, v) = mergeStep colors acc (k, v)
  ∧ Forall (λ kv, ∃ m, arrayIndex kv.1 = Some m ∧ m <= n) (mergeStep colors acc (k, v)).
Proof.
  intros Ek Hacc.
  assert (Hl : String.eqb k "logoURI" = false).
  { destruct (String.eqb_spec k "logoURI") as [->|]; [discriminate Ek | done]. }
  assert (Hp : String.eqb k "__proto__" = false).
  { destruct (String.eqb_spec k "__proto__") as [->|]; [discriminate Ek | done]. }
  assert (Hk : hasKey k acc = false).
  { apply hasKey_false. intros Hin. apply list_elem_of_fmap in Hin as ([k' x] & -> & Hin).
    rewrite List.Forall_forall in Hacc.
    destruct (Hacc (k', x)) as (m & Em & Hm); [by apply list_elem_of_In|].
    cbn in Em, Ek. rewrite Ek in Em. injection Em as <-. lia. }
  unfold jsMergeStep, mergeStep, jsSetProp, setProp. rewrite Hl, Hp, Hk, Ek.
  rewrite insertIndexed_end by done. split; [done|].
  apply Forall_app. split.
  - eapply Forall_impl; [exact Hacc|]. intros kv (m & Em & Hm). exists m. split; [done|lia].
  - apply Forall_singleton. exists n. split; [done|lia].
Qed.

Lemma fold_jsMergeStep_ordered (colors : Colors) (t : Obj) :
  ∀ (lo : Z) (acc : Obj),
    jsOrderedFrom lo t = true →
    Forall (λ kv, ∃ m, arrayIndex kv.1 = Some m ∧ m <= lo) acc →
    fold_left (jsMergeStep colors) t acc = fold_left (mergeStep colors) t acc.
Proof.
  induction t as [|[k v] t IH]; intros lo acc Ho Hacc; [done|].
  cbn [jsOrderedFrom] in Ho. destruct (arrayIndex k) as [n|] eqn:Ek.
  - apply andb_prop in Ho as [Hlo Ho]. apply Z.ltb_lt in Hlo.
    destruct (jsMergeStep_indexed colors acc k v n Ek) as [E Hacc'].
    { eapply Forall_impl; [exact Hacc|]. intros kv (m & Em & Hm). exists m.
      split; [done|lia]. }
    cbn [fold_left]. rewrite E. by apply (IH n).
  - by apply fold_jsMergeStep_named.
Qed.

(** On an object in JavaScript's key order the loop with JavaScript's
    placement of new keys builds what [mergeColors] builds. *)
Lemma jsMergeColors_mergeColors (t : Obj) (colors : Colors) :
  jsOrdered t → jsMergeColors t colors = mergeColors t colors.
Proof.
  intros Ho. unfold jsMergeColors, mergeColors.
  by apply (fold_jsMergeStep_ordered colors t (-1) []).
Qed.

(** ** Record Merger *)

Section MergeLoop.
Context (colors : Colors).

Lemma mergeStep_plain (acc : Obj) (k : string) (v : JValue) :
  k ≠ "logoURI" → k ≠ "__proto__" → k ∉ keys acc →
  mergeStep colors acc (k, v) = acc ++ [(k, v)].
Proof.
  intros Hl Hp Hk. unfold mergeStep.
  destruct (String.eqb_spec k "logoURI") as [->|_]; [done|].
  by apply setProp_new.
Qed.

(** Keys that are new and ordinary are copied in order. *)
Lemma fold_mergeStep_plain (l acc : Obj) :
  NoDup (keys l) →
  (∀ k, k ∈ keys l → k ≠ "logoURI" ∧ k ≠ "__proto__" ∧ k ∉ keys acc) →
  fold_left (mergeStep colors) l acc = acc ++ l.
Proof.
  revert acc. induction l as [|[k v] l IH]; intros acc Hnd Hl.
  - by rewrite app_nil_r.
  - cbn [keys map fst] in Hnd, Hl. apply NoDup_cons in Hnd as [Hk Hnd].
    destruct (Hl k) as (H1 & H2 & H3); [by left|].
    cbn [fold_left]. rewrite mergeStep_plain by done.
    rewrite IH; [by rewrite <- app_assoc| done |].
    intros k' Hk'. destruct (Hl k') as (H1' & H2' & H3'); [by right|].
    split; [done|]. split; [done|].
    rewrite keys_app. intros [?|Hin]%elem_of_app; [done|].
    cbn in Hin. apply list_elem_of_singleton in Hin. by subst.
Qed.

Lemma mergeStep_app_r (pre l : Obj) (k : string) (v : JValue) :
  k ∉ keys pre → (∀ c, c ∈ colorKeys → c ∉ keys pre) →
  mergeStep colors (pre ++ l) (k, v) = pre ++ mergeStep colors l (k, v).
Proof.
  intros Hk Hc. unfold mergeStep.
  rewrite setProp_app_r by done.
  destruct (String.eqb k "logoURI"); [|done].
  rewrite !setProp_app_r; [done | | |]; apply Hc; unfold colorKeys;
    repeat first [ by left | right ].
Qed.

Lemma fold_mergeStep_app_r (entries pre l : Obj) :
  (∀ k, k ∈ keys entries → k ∉ keys pre) →
  (∀ c, c ∈ colorKeys → c ∉ keys pre) →
  fold_left (mergeStep colors) entries (pre ++ l)
  = pre ++ fold_left (mergeStep colors) entries l.
Proof.
  revert l. induction entries as [|[k v] entries IH]; intros l Hk Hc; [done|].
  cbn [fold_left]. rewrite mergeStep_app_r; [|apply Hk; by left|done].
  apply IH; [|done]. intros k' Hk'. apply Hk. by right.
Qed.

Lemma mergeColors_app (pre rest : Obj) :
  NoDup (keys (pre ++ rest)) →
  "logoURI" ∉ keys pre → "__proto__" ∉ keys pre →
  (∀ c, c ∈ colorKeys → c ∉ keys pre) →
  mergeColors (pre ++ rest) colors = pre ++ mergeColors rest colors.
Proof.
  intros Hnd Hl Hp Hc. rewrite keys_app in Hnd.
  apply NoDup_app in Hnd as (Hpre & Hdisj & Hrest).
  unfold mergeColors. rewrite fold_left_app.
  rewrite (fold_mergeStep_plain pre []); [| done |].
  - cbn [app].
    pose proof (fold_mergeStep_app_r rest pre []) as H.
    rewrite app_nil_r in H. apply H; [|done].
    intros k Hk Hk'. by apply (Hdisj k).
  - intros k Hk. split; [by intros ->|]. split; [by intros ->|]. apply not_elem_of_nil.
Qed.

Lemma not_logo_or_color (k : string) (u : JValue) (entries : Obj) :
  keys entries = colorKeys → k ≠ "logoURI" → k ∉ colorKeys →
  k ∉ keys (("logoURI", u) :: entries).
Proof.
  intros E Hl Hc. cbn [keys map fst]. fold (keys entries). rewrite E.
  by apply not_elem_of_cons.
Qed.

Lemma mergeColors_logo_first (u : JValue) (post : Obj) :
  NoDup (keys post) →
  (∀ k, k ∈ keys post → k ≠ "logoURI" ∧ k ≠ "__proto__" ∧ k ∉ colorKeys) →
  mergeColors (("logoURI", u) :: post) colors
  = ("logoURI", u) :: colorEntries colors ++ post.
Proof.
  intros Hnd Hpost. unfold mergeColors. cbn [fold_left].
  change (mergeStep colors [] ("logoURI", u))
    with (("logoURI", u) :: colorEntries colors).
  rewrite fold_mergeStep_plain; [done | done |].
  intros k Hk. destruct (Hpost k Hk) as (H1 & H2 & H3).
  split; [done|]. split; [done|]. by apply not_logo_or_color.
Qed.

Lemma mergeColors_logo_stored (u a1 a2 a3 : JValue) (post : Obj) :
  NoDup (keys post) →
  (∀ k, k ∈ keys post → k ≠ "logoURI" ∧ k ≠ "__proto__" ∧ k ∉ colorKeys) →
  mergeColors
    (("logoURI", u) :: ("averageColor", a1) :: ("dominantColor1", a2)
       :: ("dominantColor2", a3) :: post) colors
  = ("logoURI", u) :: ("averageColor", a1) :: ("dominantColor1", a2)
       :: ("dominantColor2", a3) :: post.
Proof.
  intros Hnd Hpost. unfold mergeColors. cbn [fold_left].
  change (mergeStep colors
            (mergeStep colors
               (mergeStep colors (mergeStep colors [] ("logoURI", u))
                  ("averageColor", a1)) ("dominantColor1", a2))
            ("dominantColor2", a3))
    with [("logoURI", u); ("averageColor", a1); ("dominantColor1", a2);
          ("dominantColor2", a3)].
  rewrite fold_mergeStep_plain; [done | done |].
  intros k Hk. destruct (Hpost k Hk) as (H1 & H2 & H3).
  split; [done|]. split; [done|]. by apply not_logo_or_color.
Qed.

Lemma key_split (k : string) (t : Obj) :
  k ∈ keys t → ∃ pre v post, t = pre ++ (k, v) :: post ∧ k ∉ keys pre.
Proof.
  induction t as [|[k' v'] t IH]; intros Hk; [by apply elem_of_nil in Hk|].
  destruct (decide (k' = k)) as [->|Hne].
  - exists [], v', t. split; [done | apply not_elem_of_nil].
  - cbn in Hk. apply elem_of_cons in Hk as [->|Hk]; [done|].
    destruct (IH Hk) as (pre & v & post & -> & Hpre).
    exists ((k', v') :: pre), v, post. split; [done|].
    cbn. by apply not_elem_of_cons.
Qed.

Lemma insertAfterLogo_app (pre post : Obj) (u : JValue) :
  "logoURI" ∉ keys pre →
  insertAfterLogo colors (pre ++ ("logoURI", u) :: post)
  = pre ++ ("logoURI", u) :: colorEntries colors ++ post.
Proof.
  induction pre as [|[k v] pre IH]; intros Hk; [done|].
  cbn in Hk. apply not_elem_of_cons in Hk as [Hne Hk].
  cbn [app insertAfterLogo]. destruct (String.eqb_spec k "logoURI") as [->|_]; [done|].
  by rewrite IH.
Qed.


(** The merged record of a fresh token: nothing but the insertion. *)
Lemma mergeColors_fresh (t : Obj) :
  plainRecord t → "logoURI" ∈ keys t → (∀ c, c ∈ colorKeys → c ∉ keys t) →
  mergeColors t colors = insertAfterLogo colors t.
Proof.
  intros [Hnd Hp] Hlogo Hc.
  destruct (key_split _ _ Hlogo) as (pre & u & post & -> & Hpre).
  rewrite insertAfterLogo_app by done.
  rewrite keys_app in Hp, Hc. cbn [keys map fst] in Hp, Hc.
  pose proof Hnd as Hnd'. rewrite keys_app in Hnd'. cbn [keys map fst] in Hnd'.
  apply NoDup_app in Hnd' as (_ & _ & [Hu Hpost]%NoDup_cons).
  assert (Hin : ∀ k, k ∈ keys post → k ∈ keys pre ++ "logoURI" :: keys post).
  { intros k Hk. apply elem_of_app. right. by right. }
  assert (Hin' : ∀ k, k ∈ keys pre → k ∈ keys pre ++ "logoURI" :: keys post).
  { intros k Hk. apply elem_of_app. by left. }
  rewrite mergeColors_app; [| done | done | | ].
  - rewrite mergeColors_logo_first; [done | done |].
    intros k Hk. split; [by intros ->|]. split; [intros ->; auto|].
    intros Hk'. by apply (Hc k Hk'), Hin.
  - intros Hk. by apply Hp, Hin'.
  - intros c Hc' Hk. by apply (Hc c Hc'), Hin'.
Qed.

End MergeLoop.

(** ** The merge loop on the store *)

Lemma getProp_entry (t : Obj) (k : string) (v : JValue) :
  NoDup (keys t) → (k, v) ∈ t → getProp t k = Some v.
Proof.
  induction t as [|[k' v'] t IH]; intros Hnd Hin; [by apply elem_of_nil in Hin|].
  cbn in Hnd. apply NoDup_cons in Hnd as [Hk' Hnd]. cbn [getProp].
  apply elem_of_cons in Hin as [[= -> ->]|Hin].
  - by rewrite String.eqb_refl.
  - destruct (String.eqb_spec k' k) as [->|_]; [|by apply IH].
    exfalso. apply Hk'. change k with (fst (k, v)). by apply list_elem_of_fmap_2.
Qed.

Lemma storeWrite_insert (σ : Store) (n : positive) (k : string) (v : JValue) (o : Obj) :
  storeWrite n k v (<[n := o]> σ) = <[n := setProp k v o]> σ.
Proof. unfold storeWrite. apply alter_insert_eq. Qed.

Lemma fold_mergeStepRef (σ : Store) (token n : positive) (t : Obj) (colors : Colors) :
  token ≠ n → σ !! token = Some t →
  ∀ rest acc,
    (∀ k v, (k, v) ∈ rest → getProp t k = Some v) →
    fold_left (mergeStepRef colors token n) (keys rest) (<[n := acc]> σ)
    = <[n := fold_left (mergeStep colors) rest acc]> σ.
Proof.
  intros Hne Ht. induction rest as [|[k v] rest IH]; intros acc Hrest; [done|].
  cbn [keys map fst fold_left]. fold (keys rest).
  assert (E : mergeStepRef colors token n (<[n := acc]> σ) k
              = <[n := mergeStep colors acc (k, v)]> σ).
  { unfold mergeStepRef, storeRead. rewrite lookup_insert_ne by done. rewrite Ht.
    rewrite (Hrest k v) by (by left). unfold mergeStep.
    rewrite !storeWrite_insert. by destruct (String.eqb k "logoURI"). }
  rewrite E. apply IH. intros k' v' Hin. apply Hrest. by right.
Qed.

(** The loop on references builds the merged record in a fresh object and
    writes nowhere else. *)
Lemma mergeColorsRef_mergeColors (σ : Store) (token : positive) (t : Obj) (colors : Colors) :
  σ !! token = Some t → NoDup (keys t) →
  mergeColorsRef σ token colors
  = (<[fresh (dom σ) := mergeColors t colors]> σ, fresh (dom σ))
  ∧ (fresh (dom σ) ∉ dom σ)
  ∧ (<[fresh (dom σ) := mergeColors t colors]> σ) !! token = Some t.
Proof.
  intros Ht Hnd. pose proof (is_fresh (dom σ)) as Hfresh.
  assert (Hne : token ≠ fresh (dom σ)).
  { intros E. apply Hfresh. rewrite <- E. apply elem_of_dom. by eexists. }
  split; [|split; [done|by rewrite lookup_insert_ne]].
  unfold mergeColorsRef. rewrite lookup_insert_ne by done. rewrite Ht.
  f_equal. apply (fold_mergeStepRef σ token _ t colors Hne Ht t []).
  intros k v Hin. by apply getProp_entry.
Qed.



Lemma plainRecord_decide (t : Obj) :
  bool_decide (NoDup (keys t)) && negb (bool_decide ("__proto__" ∈ keys t)) = true →
  plainRecord t.
Proof.
  intros [H1 H2]%andb_prop. split; [by apply bool_decide_eq_true in H1|].
  apply negb_true_iff, bool_decide_eq_false in H2. exact H2.
Qed.


(** A record whose colour keys follow the logo key comes out as it went in. *)
Lemma mergeColors_stored (pre post : Obj) (u a1 a2 a3 : JValue) (colors : Colors) :
  plainRecord
    (pre ++ ("logoURI", u) :: ("averageColor", a1) :: ("dominantColor1", a2)
         :: ("dominantColor2", a3) :: post) →
  mergeColors
    (pre ++ ("logoURI", u) :: ("averageColor", a1) :: ("dominantColor1", a2)
         :: ("dominantColor2", a3) :: post) colors
  = pre ++ ("logoURI", u) :: ("averageColor", a1) :: ("dominantColor1", a2)
        :: ("dominantColor2", a3) :: post.
Proof.
  intros [Hnd Hp]. rewrite keys_app in Hp. cbn [keys map fst] in Hp. fold (keys post) in Hp.
  pose proof Hnd as Hnd'. rewrite keys_app in Hnd'. cbn [keys map fst] in Hnd'.
  fold (keys post) in Hnd'.
  apply NoDup_app in Hnd' as (_ & Hdisj & Hright).
  apply NoDup_cons in Hright as [N0 Hright]. apply NoDup_cons in Hright as [N1 Hright].
  apply NoDup_cons in Hright as [N2 Hright]. apply NoDup_cons in Hright as [N3 Hpost].
  assert (Hout : ∀ k, k ∈ ["logoURI"; "averageColor"; "dominantColor1"; "dominantColor2"]
                      → k ∉ keys pre).
  { intros k Hk Hk'. apply (Hdisj k Hk').
    repeat (apply elem_of_cons in Hk as [->|Hk]; [repeat first [ by left | right ]|]).
    by apply elem_of_nil in Hk. }
  rewrite mergeColors_app; [| done | | |].
  - rewrite mergeColors_logo_stored; [done | done |].
    intros k Hk. split; [intros ->; apply N0; by do 3 right|].
    split; [intros ->; apply Hp, elem_of_app; right; by do 4 right|].
    unfold colorKeys. intros Hc.
    apply elem_of_cons in Hc as [->|Hc]; [apply N1; by do 2 right|].
    apply elem_of_cons in Hc as [->|Hc]; [apply N2; by right|].
    apply elem_of_cons in Hc as [->|Hc]; [by apply N3|].
    by apply elem_of_nil in Hc.
  - apply Hout. by left.
  - intros Hk. apply Hp, elem_of_app. by left.
  - intros c Hc. apply Hout. by right.
Qed.

(** Merging is idempotent: what one pass stored, a later pass with other
    colours leaves alone. *)
Lemma mergeColors_rerun (t : Obj) (colors colors' : Colors) :
  plainRecord t → "logoURI" ∈ keys t → (∀ c, c ∈ colorKeys → c ∉ keys t) →
  mergeColors (mergeColors t colors) colors' = mergeColors t colors.
Proof.
  intros Hplain Hlogo Hc. rewrite (mergeColors_fresh colors t Hplain Hlogo Hc).
  destruct Hplain as [Hnd Hp].
  destruct (key_split _ _ Hlogo) as (pre & u & post & -> & Hpre).
  rewrite insertAfterLogo_app by done. cbn [colorEntries app].
  apply mergeColors_stored.
  rewrite keys_app in Hnd, Hp, Hc. cbn [keys map fst] in Hnd, Hp, Hc.
  fold (keys post) in Hnd, Hp, Hc.
  apply NoDup_app in Hnd as (Hnpre & Hdisj & [Hu Hpost]%NoDup_cons).
  assert (Hcpre : ∀ c, c ∈ colorKeys → c ∉ keys pre).
  { intros c Hin Hk. apply (Hc c Hin), elem_of_app. by left. }
  assert (Hcpost : ∀ c, c ∈ colorKeys → c ∉ keys post).
  { intros c Hin Hk. apply (Hc c Hin), elem_of_app. right. by right. }
  split.
  - rewrite keys_app. cbn [keys map fst]. fold (keys post).
    apply NoDup_app. split; [done|]. split.
    + intros k Hk Hk'. apply elem_of_cons in Hk' as [->|Hk']; [done|].
      apply elem_of_cons in Hk' as [->|Hk']; [apply (Hcpre "averageColor"); [by left|done]|].
      apply elem_of_cons in Hk' as [->|Hk'];
        [apply (Hcpre "dominantColor1"); [by right; left|done]|].
      apply elem_of_cons in Hk' as [->|Hk'];
        [apply (Hcpre "dominantColor2"); [by do 2 right; left|done]|].
      by apply (Hdisj k Hk); right.
    + repeat (apply NoDup_cons; split); try done.
      * intros Hk. repeat (apply elem_of_cons in Hk as [?|Hk]; [done|]). done.
      * intros Hk. repeat (apply elem_of_cons in Hk as [?|Hk]; [done|]).
        by apply (Hcpost "averageColor"); [left|].
      * intros Hk. repeat (apply elem_of_cons in Hk as [?|Hk]; [done|]).
        by apply (Hcpost "dominantColor1"); [right; left|].
      * intros Hk. by apply (Hcpost "dominantColor2"); [do 2 right; left|].
  - rewrite keys_app. cbn [keys map fst]. fold (keys post).
    intros [Hk|Hk]%elem_of_app; [apply Hp, elem_of_app; by left|].
    repeat (apply elem_of_cons in Hk as [?|Hk]; [done|]).
    apply Hp, elem_of_app. right. by right.
Qed.

(** ** Image Fetcher *)

Lemma downloadImage_run (h : Host) (url : JValue) (w : World) :
  downloadImage h url w
  = match axios_get h url with
    | Ok data => (Ok (Some data), w)
    | Throw e => (Ok None, logged (ErrorDownloading url e) w)
    end.
Proof.
  unfold downloadImage, try_catch, mbind, M_bind, lift, console_log, mret, M_ret.
  by destruct (axios_get h url).
Qed.

(** ** Colour Extractor *)

(** What a call on present bytes does, case by case. *)
Lemma processImage_Some (h : Host) (buffer : list byte) (w : World) :
  processImage h (Some buffer) w
  = match getPalette h buffer with
    | Throw e =>
        (Ok fallbackColors,
         logged (ErrorProcessingImage e)
           {| files := <[tempFileName (Date_now h) := Binary buffer]> (files w);
              console := console w |})
    | Ok palette =>
        match getColor h buffer with
        | Throw e =>
            (Ok fallbackColors,
             logged (ErrorProcessingImage e)
               {| files := <[tempFileName (Date_now h) := Binary buffer]> (files w);
                  console := console w |})
        | Ok averageColor =>
            match paletteColors palette averageColor with
            | Ok colors =>
                (Ok colors,
                 {| files := delete (tempFileName (Date_now h)) (files w);
                    console := console w |})
            | Throw e =>
                (Ok fallbackColors,
                 logged (ErrorProcessingImage e)
                   {| files := delete (tempFileName (Date_now h)) (files w);
                      console := console w |})
            end
        end
    end.
Proof.
  unfold processImage, try_catch, mbind, M_bind, fs_writeFile, ColorThief_load,
    fs_unlink, lift, console_log, mret, M_ret. cbn [files console].
  rewrite lookup_insert_eq.
  destruct (getPalette h buffer) as [palette|e]; [|done].
  cbn [files console]. rewrite lookup_insert_eq.
  destruct (getColor h buffer) as [averageColor|e]; [|done].
  cbn [files console]. rewrite lookup_insert_eq, delete_insert_eq.
  by destruct (paletteColors palette averageColor).
Qed.

Lemma processImage_total (h : Host) (imageBuffer : option (list byte)) (w : World) :
  ∃ colors w', processImage h imageBuffer w = (Ok colors, w').
Proof.
  destruct imageBuffer as [buffer|]; [|by eexists _, _].
  rewrite processImage_Some.
  destruct (getPalette h buffer); [|by eexists _, _].
  destruct (getColor h buffer); [|by eexists _, _].
  destruct (paletteColors _ _); by eexists _, _.
Qed.

(** On the success path the temporary file is gone. *)
Lemma processImage_success_cleans (h : Host) (buffer : list byte) (w : World)
    (palette : option (list (list Z))) (averageColor : option (list Z)) :
  getPalette h buffer = Ok palette → getColor h buffer = Ok averageColor →
  files (processImage h (Some buffer) w).2 !! tempFileName (Date_now h) = None.
Proof.
  intros E1 E2. rewrite processImage_Some, E1, E2.
  destruct (paletteColors palette averageColor); cbn; apply lookup_delete_eq.
Qed.

(** When the palette library rejects the image the temporary file stays. *)
Lemma processImage_error_leaks (h : Host) (buffer : list byte) (w : World) (e : Error) :
  getPalette h buffer = Throw e →
  processImage h (Some buffer) w
  = (Ok fallbackColors,
     logged (ErrorProcessingImage e)
       {| files := <[tempFileName (Date_now h) := Binary buffer]> (files w);
          console := console w |}).
Proof. intros E. by rewrite processImage_Some, E. Qed.

(** C8. On the absent sentinel the extractor returns exactly the fixed
    fallback triple ([#000000], [#000000], [#ffffff]) and touches nothing;
    so it does on what the Image Fetcher returns when the download fails. *)
Theorem processImage_absent (h : Host) (w : World) :
  processImage h None w
  = (Ok {| averageColor := "#000000";
           dominantColor1 := "#000000";
           dominantColor2 := "#ffffff" |}, w)
  ∧ ∀ url e, axios_get h url = Throw e →
      (downloadImage h url ≫= processImage h) w
      = (Ok {| averageColor := "#000000";
               dominantColor1 := "#000000";
               dominantColor2 := "#ffffff" |},
         logged (ErrorDownloading url e) w).
Proof.
  split; [reflexivity|]. intros url e He.
  unfold mbind, M_bind. rewrite downloadImage_run, He. reflexivity.
Qed.

(** C3 fails on the code: when the palette library rejects the bytes, the
    [catch] block returns the fallback colours and the temporary file, which
    did not exist before the call, is still there after it. *)
Theorem processImage_decode_error_keeps_temp_file :
  files emptyWorld !! "temp_1700000000000.png" = None
  ∧ (processImage corruptHost (Some logoBytes) emptyWorld).1 = Ok fallbackColors
  ∧ files (processImage corruptHost (Some logoBytes) emptyWorld).2
      !! "temp_1700000000000.png" = Some (Binary logoBytes).
Proof.
  split; [reflexivity|].
  rewrite (processImage_error_leaks corruptHost logoBytes emptyWorld
             (HostError "unsupported image type") eq_refl).
  split; [reflexivity|]. cbn [snd files logged].
  change (tempFileName (Date_now corruptHost)) with "temp_1700000000000.png".
  apply lookup_insert_eq.
Qed.

Lemma toHex_rgbArray (c : Rgb) : validRgb c → toHex (rgbArray c) = colorString c.
Proof.
  intros (Hr & Hg & Hb). unfold toHex, rgbArray. cbn [map].
  rewrite (padStart2_hexPair _ Hr), (padStart2_hexPair _ Hg), (padStart2_hexPair _ Hb).
  rewrite concat_hexPairs. by destruct c.
Qed.

Lemma validRgb_white : validRgb white.
Proof. unfold validRgb, channel. cbn. lia. Qed.

Lemma paletteColors_single (c : Rgb) (avg : list Z) :
  validRgb c →
  paletteColors (Some [rgbArray c]) (Some avg)
  = Ok {| averageColor := toHex avg;
          dominantColor1 := colorString c;
          dominantColor2 := colorString (mixSpec c white (1 # 10)) |}
  ∧ mixColors (colorString c) "#ffffff" (1 # 10)
    = Ok (colorString (mixSpec c white (1 # 10))).
Proof.
  intros Vc.
  assert (Hr : (0 <= 1 # 10 <= 1)%Q) by (unfold Qle; cbn; lia).
  destruct (mixColors_mixSpec c white (1 # 10) Vc validRgb_white Hr) as [E _].
  change (colorString white) with "#ffffff" in E.
  split; [|exact E].
  unfold paletteColors. cbn [readArray mbind Res_bind lookup list_lookup].
  rewrite (toHex_rgbArray c Vc), E. reflexivity.
Qed.

Lemma paletteColors_empty (averageColor : option (list Z)) (colors : Colors) :
  paletteColors (Some []) averageColor = Ok colors →
  dominantColor1 colors = "#000000".
Proof.
  unfold paletteColors. cbn [readArray mbind Res_bind lookup list_lookup].
  change (mixColors "#000000" "#ffffff" (1 # 10)) with (Ok "#e6e6e6" : Res string).
  destruct averageColor as [avg|]; cbn; [|discriminate].
  by intros [= <-].
Qed.

(** C7. When the palette has exactly one entry (a valid colour) and the
    average colour is there, [dominantColor1] is that entry and
    [dominantColor2] is [mixColors(dominantColor1, '#ffffff', 0.1)]; when
    the palette is empty, [dominantColor1] is [#000000].  The call always
    returns. *)
Theorem processImage_short_palette
    (h : Host) (buffer : list byte) (w : World) (palette : list (list Z)) :
  getPalette h buffer = Ok (Some palette) →
  ∃ colors w',
    processImage h (Some buffer) w = (Ok colors, w')
    ∧ (palette = [] → dominantColor1 colors = "#000000")
    ∧ (∀ (c : Rgb) (avg : list Z),
         palette = [rgbArray c] → validRgb c →
         getColor h buffer = Ok (Some avg) →
         dominantColor1 colors = toHex (rgbArray c)
         ∧ mixColors (dominantColor1 colors) "#ffffff" (1 # 10)
           = Ok (dominantColor2 colors)).
Proof.
  intros Hp. rewrite processImage_Some, Hp.
  destruct (getColor h buffer) as [averageColor|e] eqn:Hc.
  - destruct (paletteColors (Some palette) averageColor) as [colors|e] eqn:Hpc.
    + eexists _, _. split; [done|]. split.
      * intros ->. by eapply paletteColors_empty.
      * intros c avg -> Vc [= ->].
        destruct (paletteColors_single c avg Vc) as [E1 E2].
        rewrite E1 in Hpc. injection Hpc as <-. cbn.
        by rewrite (toHex_rgbArray c Vc).
    + eexists _, _. split; [done|]. split; [done|].
      intros c avg -> Vc [= ->].
      destruct (paletteColors_single c avg Vc) as [E1 _]. congruence.
  - eexists _, _. split; [done|]. split; [done|]. by intros c avg _ _ [=].
Qed.

Lemma processImage_short_palette_witness :
  getPalette redHost logoBytes = Ok (Some [rgbArray red])
  ∧ ∃ colors w',
      processImage redHost (Some logoBytes) emptyWorld = (Ok colors, w')
      ∧ dominantColor1 colors = "#ff0000"
      ∧ dominantColor2 colors = "#ffe6e6".
Proof.
  split; [reflexivity|].
  destruct (processImage_short_palette redHost logoBytes emptyWorld
              [rgbArray red] eq_refl) as (colors & w' & Hrun & _ & Hsingle).
  assert (V : validRgb red) by (unfold validRgb, channel; simpl; lia).
  destruct (Hsingle red (rgbArray red) eq_refl V eq_refl) as [H1 H2].
  exists colors, w'. split; [exact Hrun|]. split; [exact H1|].
  assert (E : mixColors (toHex (rgbArray red)) "#ffffff" (1 # 10) = Ok "#ffe6e6")
    by (vm_compute; reflexivity).
  rewrite H1, E in H2. injection H2 as H2. symmetry. exact H2.
Defined.

(** When the library has a palette but no average colour, reading the
    average colour throws and the call returns the fallback triple. *)
Lemma processImage_without_average
    (h : Host) (buffer : list byte) (w : World) (palette : list (list Z)) :
  getPalette h buffer = Ok (Some palette) →
  getColor h buffer = Ok None →
  (processImage h (Some buffer) w).1 = Ok fallbackColors.
Proof.
  intros Hp Hc. rewrite processImage_Some, Hp, Hc.
  destruct (paletteColors (Some palette) None) as [colors|e] eqn:E; [|done].
  unfold paletteColors in E. cbn [readArray mbind Res_bind] in E.
  destruct (palette !! 1%nat); [discriminate E|].
  by destruct (mixColors _ _ _).
Qed.

(** ** Batch Driver *)

Lemma processTokenAt_skip (h : Host) (i : nat) (toks : list Obj) (token : Obj) (w : World) :
  toks !! i = Some token → truthy (getProp token "logoURI") = false →
  processTokenAt h i toks w = (Ok toks, w).
Proof. intros Hi Hl. unfold processTokenAt. by rewrite Hi, Hl. Qed.

Lemma processTokenAt_fetch_failure
    (h : Host) (i : nat) (toks : list Obj) (token : Obj) (w : World) (e : Error) :
  toks !! i = Some token → truthy (getProp token "logoURI") = true →
  axios_get h (default JNull (getProp token "logoURI")) = Throw e →
  processTokenAt h i toks w
  = (Ok toks,
     logged FailedToProcessImage
       (logged (ErrorDownloading (default JNull (getProp token "logoURI")) e)
          (logged (Processing (getProp token "symbol") (i + 1) (length toks)) w))).
Proof.
  intros Hi Hl He. unfold processTokenAt. rewrite Hi, Hl.
  unfold mbind, M_bind, console_log at 1. rewrite downloadImage_run, He. reflexivity.
Qed.

Lemma processTokenAt_total (h : Host) (i : nat) (toks : list Obj) (token : Obj) (w : World) :
  toks !! i = Some token →
  ∃ toks' w',
    processTokenAt h i toks w = (Ok toks', w')
    ∧ length toks' = length toks
    ∧ (∀ j, j ≠ i → toks' !! j = toks !! j)
    ∧ (toks' !! i = Some token
       ∨ ∃ colors, toks' !! i = Some (mergeColors token colors)).
Proof.
  intros Ht. pose proof (lookup_lt_Some _ _ _ Ht) as Hi.
  unfold processTokenAt. rewrite Ht.
  destruct (truthy (getProp token "logoURI")); [|by eexists _, _; auto].
  unfold mbind, M_bind, console_log at 1. rewrite downloadImage_run.
  destruct (axios_get h _) as [data|e]; [|by eexists _, _; auto].
  destruct (processImage_total h (Some data)
              (logged (Processing (getProp token "symbol") (i + 1) (length toks)) w))
    as (colors & w' & ->).
  eexists _, _. split; [reflexivity|]. split; [apply length_insert|].
  split; [intros j Hj; by apply list_lookup_insert_ne|].
  right. exists colors. by apply list_lookup_insert_eq.
Qed.

(** The loop: every token is either kept or replaced by its merge with
    some colours, and a token that is not replaced is kept. *)
Lemma forTokens_spec (hosts : nat → Host) (count : nat) :
  ∀ (i : nat) (toks : list Obj) (w : World),
    (i + count = length toks)%nat →
    ∃ toks' w',
      forTokens hosts count i toks w = (Ok toks', w')
      ∧ length toks' = length toks
      ∧ ∀ j token, toks !! j = Some token →
          ((j < i)%nat ∨ notReplaced (hosts j) token → toks' !! j = Some token)
          ∧ (toks' !! j = Some token
             ∨ ∃ colors, toks' !! j = Some (mergeColors token colors)).
Proof.
  induction count as [|count IH]; intros i toks w Hlen.
  - exists toks, w. repeat split; auto.
  - cbn [forTokens]. unfold mbind, M_bind.
    destruct (lookup_lt_is_Some_2 toks i) as [ti Hti]; [lia|].
    destruct (processTokenAt_total (hosts i) i toks ti w Hti)
      as (toks1 & w1 & E1 & L1 & O1 & R1).
    rewrite E1.
    destruct (IH (S i) toks1 w1) as (toks' & w' & E & L & O); [lia|].
    exists toks', w'. split; [exact E|]. split; [congruence|].
    intros j token Hj.
    destruct (decide (j = i)) as [->|Hne].
    + assert (ti = token) as -> by congruence.
      assert (Hkeep : ∀ out, toks1 !! i = Some out → toks' !! i = Some out).
      { intros out Hout. apply (O i out Hout). left. lia. }
      split.
      * intros [Hlt | [Hskip | [e He]]]; [lia | |]; apply Hkeep.
        -- rewrite (processTokenAt_skip _ _ _ _ _ Hj Hskip) in E1. congruence.
        -- destruct (truthy (getProp token "logoURI")) eqn:Hl.
           ++ rewrite (processTokenAt_fetch_failure _ _ _ _ _ _ Hj Hl He) in E1.
              congruence.
           ++ rewrite (processTokenAt_skip _ _ _ _ _ Hj Hl) in E1. congruence.
      * destruct R1 as [R1 | [colors R1]]; [left | right; exists colors];
          by apply Hkeep.
    + assert (Hj1 : toks1 !! j = Some token) by (by rewrite O1).
      destruct (O j token Hj1) as [Ok1 Or1]. split; [|exact Or1].
      intros [Hlt | Hn]; apply Ok1; [left; lia | by right].
Qed.

Lemma processTokenlist_run
    (hosts : nat → Host) (w w2 : World) (doc : TokenList) (toks' : list Obj) :
  files w !! tokenlistPath = Some (JsonText doc) →
  forTokens hosts (length (tokens doc)) 0 (tokens doc) (logged ProcessingTokens w)
  = (Ok toks', w2) →
  processTokenlist hosts w
  = (Ok tt,
     logged Completed
       {| files := <[previewPath := HtmlText toks']>
                     (<[tokenlistPath :=
                          JsonText {| tokens := toks'; siblings := siblings doc |}]>
                        (files w2));
          console := console w2 |}).
Proof.
  intros Hf Hloop.
  unfold processTokenlist, try_catch, mbind, M_bind, fs_readFile.
  rewrite Hf. cbn [JSON_parse mret M_ret]. unfold console_log at 1.
  rewrite Hloop. reflexivity.
Qed.

(** Without a token list nothing is written: the error is reported. *)
Lemma processTokenlist_missing_file (hosts : nat → Host) (w : World) :
  files w !! tokenlistPath = None →
  processTokenlist hosts w = (Ok tt, logged (ErrorFatal (HostError "ENOENT")) w).
Proof.
  intros Hf. unfold processTokenlist, try_catch, mbind, M_bind, fs_readFile.
  by rewrite Hf.
Qed.

(** Whatever happens to the other tokens, the run completes and writes
    both files; every token is written as it was read or merged with some
    colours, and a token that is not replaced is written as it was read. *)
Lemma processTokenlist_spec (hosts : nat → Host) (w : World) (doc : TokenList) :
  files w !! tokenlistPath = Some (JsonText doc) →
  ∃ toks' w',
    processTokenlist hosts w = (Ok tt, w')
    ∧ files w' !! tokenlistPath
      = Some (JsonText {| tokens := toks'; siblings := siblings doc |})
    ∧ files w' !! previewPath = Some (HtmlText toks')
    ∧ length toks' = length (tokens doc)
    ∧ ∀ j token, tokens doc !! j = Some token →
        (notReplaced (hosts j) token → toks' !! j = Some token)
        ∧ (toks' !! j = Some token
           ∨ ∃ colors, toks' !! j = Some (mergeColors token colors)).
Proof.
  intros Hf.
  destruct (forTokens_spec hosts (length (tokens doc)) 0 (tokens doc)
              (logged ProcessingTokens w)) as (toks' & w2 & E & L & O); [lia|].
  exists toks'. eexists. split; [by apply (processTokenlist_run hosts w w2 doc toks')|].
  cbn [files logged]. split.
  - rewrite lookup_insert_ne by done. apply lookup_insert_eq.
  - split; [apply lookup_insert_eq|]. split; [done|].
    intros j token Hj. destruct (O j token Hj) as [O1 O2]. split; [|exact O2].
    intros Hn. apply O1. by right.
Qed.

(** C4. A token without a (truthy) logo reference is left as it is: the
    loop body changes neither the collection nor the world, and the record
    written to the token list is the record that was read. *)
Theorem token_without_logo_unchanged
    (hosts : nat → Host) (w : World) (doc : TokenList) (i : nat) (token : Obj) :
  files w !! tokenlistPath = Some (JsonText doc) →
  tokens doc !! i = Some token →
  truthy (getProp token "logoURI") = false →
  (∀ toks w0, toks !! i = Some token →
     processTokenAt (hosts i) i toks w0 = (Ok toks, w0))
  ∧ ∃ toks' w',
      processTokenlist hosts w = (Ok tt, w')
      ∧ files w' !! tokenlistPath
        = Some (JsonText {| tokens := toks'; siblings := siblings doc |})
      ∧ length toks' = length (tokens doc)
      ∧ toks' !! i = Some token.
Proof.
  intros Hf Hi Hl. split.
  - intros toks w0 Ht. by apply (processTokenAt_skip _ _ _ token).
  - destruct (processTokenlist_spec hosts w doc Hf) as (toks' & w' & E & F1 & _ & L & O).
    exists toks', w'. repeat split; try done. apply (proj1 (O i token Hi)). by left.
Qed.

Lemma token_without_logo_unchanged_witness :
  files plyrWorld !! tokenlistPath = Some (JsonText plyrList)
  ∧ tokens plyrList !! 0%nat = Some bareToken
  ∧ truthy (getProp bareToken "logoURI") = false
  ∧ ∃ toks' w',
      processTokenlist (λ _, redHost) plyrWorld = (Ok tt, w')
      ∧ files w' !! tokenlistPath
        = Some (JsonText {| tokens := toks'; siblings := siblings plyrList |})
      ∧ length toks' = length (tokens plyrList)
      ∧ toks' !! 0%nat = Some bareToken.
Proof.
  split; [reflexivity|]. split; [reflexivity|]. split; [reflexivity|].
  exact (proj2 (token_without_logo_unchanged (λ _, redHost) plyrWorld plyrList
                  0%nat bareToken eq_refl eq_refl eq_refl)).
Defined.






(** * Further properties *)

(** ** Checks over all pairs of channel values *)

Lemma allChannelPairs_ok (check : Z → Z → bool) (x y : Z) :
  allChannelPairs check = true → channel x → channel y → check x y = true.
Proof.
  intros Hall Hx Hy. unfold allChannelPairs in Hall.
  rewrite forallb_forall in Hall. specialize (Hall x (channel_enum x Hx)).
  rewrite forallb_forall in Hall. exact (Hall y (channel_enum y Hy)).
Qed.

Lemma halfSumAt_all : allChannelPairs halfSumAt = true.
Proof. vm_compute. reflexivity. Qed.

Lemma halfExactAt_all : forallb halfExactAt (map Z.of_nat (seq 0 511)) = true.
Proof. vm_compute. reflexivity. Qed.

(** At the default ratio the doubles round to the integer that the
    rationals give, for all pairs of channel values. *)
Lemma binary64_half (x y : Z) :
  channel x → channel y →
  Math_round64 (mixedChannel64 x y half64)
  = Some (Math_round (inject_Z x * (1 # 2) + inject_Z y * (1 - (1 # 2)))).
Proof.
  intros Hx Hy.
  pose proof (allChannelPairs_ok _ _ _ halfSumAt_all Hx Hy) as Hs.
  unfold halfSumAt in Hs. apply FloatAxioms.Leibniz.eqb_spec in Hs. rewrite Hs.
  assert (Hin : In (x + y) (map Z.of_nat (seq 0 511))).
  { unfold channel in Hx, Hy. apply in_map_iff. exists (Z.to_nat (x + y)).
    split; [lia|]. apply in_seq. lia. }
  pose proof halfExactAt_all as Hall. rewrite forallb_forall in Hall.
  specialize (Hall _ Hin). unfold halfExactAt in Hall. unfold Math_round64.
  destruct (exactValue _) as [q|]; [|discriminate Hall].
  change (Some (Math_round q)
          = Some (Math_round (inject_Z x * (1 # 2) + inject_Z y * (1 - (1 # 2))))).
  f_equal. apply Qeq_bool_eq in Hall. apply Math_round_comp. rewrite Hall.
  unfold Qeq, inject_Z. cbn. lia.
Qed.

(** ** The decoder and the encoder of the mixer *)

Lemma not_hash_prefix (c : ascii) (rest : string) :
  c ≠ "#"%char →
  match String c rest with
  | String "#"%char rest' => rest'
  | _ => String c rest
  end = String c rest.
Proof.
  destruct c as [[] [] [] [] [] [] [] []]; intros H;
    first [ reflexivity | by destruct H ].
Qed.

Lemma hexToRgb_after_hash (c : ascii) (rest : string) :
  c ≠ "#"%char → hexToRgb (String "#" (String c rest)) = hexToRgb (String c rest).
Proof.
  intros H. unfold hexToRgb, hexPatternExec. by rewrite (not_hash_prefix c rest H).
Qed.

Lemma hexToRgb_two_hashes (rest : string) :
  hexToRgb (String "#" (String "#" rest)) = None.
Proof. by destruct rest as [|c1 [|c2 [|c3 [|c4 [|c5 [|c6 tl]]]]]]. Qed.

Lemma lowerAscii_hash (c : ascii) : lowerAscii c = "#"%char ↔ c = "#"%char.
Proof.
  destruct c as [[] [] [] [] [] [] [] []]; vm_compute; split; intros H;
    first [ reflexivity | discriminate H ].
Qed.

Lemma isHexDigit_lowerAscii (c : ascii) : isHexDigit (lowerAscii c) = isHexDigit c.
Proof. destruct c as [[] [] [] [] [] [] [] []]; reflexivity. Qed.

Lemma digitValue_lowerAscii (c : ascii) :
  isHexDigit c = true → digitValue (lowerAscii c) = digitValue c.
Proof.
  destruct c as [[] [] [] [] [] [] [] []]; intros H;
    first [ reflexivity | vm_compute in H; discriminate H ].
Qed.

Lemma lowerHexDigit_digitValue (c : ascii) :
  isHexDigit c = true → lowerHexDigit (digitValue c) = lowerAscii c.
Proof.
  destruct c as [[] [] [] [] [] [] [] []]; intros H;
    first [ reflexivity | vm_compute in H; discriminate H ].
Qed.

Lemma isLowerHexDigit_lowerAscii (c : ascii) :
  isLowerHexDigit c = true → lowerAscii c = c.
Proof.
  destruct c as [[] [] [] [] [] [] [] []]; intros H;
    first [ reflexivity | vm_compute in H; discriminate H ].
Qed.

(** Two hexadecimal digits, read and written again, come out in lowercase. *)
Lemma hexPair_parseInt16 (c1 c2 : ascii) :
  isHexDigit c1 = true → isHexDigit c2 = true →
  hexPair (parseInt16 (String c1 (String c2 EmptyString)))
  = String (lowerAscii c1) (String (lowerAscii c2) EmptyString).
Proof.
  intros H1 H2.
  pose proof (digitValue_range c1 H1) as R1.
  pose proof (digitValue_range c2 H2) as R2.
  unfold parseInt16, hexPair. cbn [list_ascii_of_string fold_left].
  replace ((16 * (16 * 0 + digitValue c1) + digitValue c2) / 16) with (digitValue c1)
    by (apply (Z.div_unique _ 16 _ (digitValue c2)); lia).
  replace ((16 * (16 * 0 + digitValue c1) + digitValue c2) mod 16) with (digitValue c2)
    by (apply (Z.mod_unique _ 16 (digitValue c1)); lia).
  by rewrite !lowerHexDigit_digitValue.
Qed.

(** What the decoder does with the six digits. *)
Lemma hexToRgb_digits (c1 c2 c3 c4 c5 c6 : ascii) :
  c1 ≠ "#"%char →
  hexToRgb (String c1 (String c2 (String c3 (String c4 (String c5 (String c6 ""))))))
  = if forallb isHexDigit [c1; c2; c3; c4; c5; c6]
    then Some {| r := parseInt16 (String c1 (String c2 ""));
                 g := parseInt16 (String c3 (String c4 ""));
                 b := parseInt16 (String c5 (String c6 "")) |}
    else None.
Proof.
  intros H. unfold hexToRgb, hexPatternExec. rewrite (not_hash_prefix c1 _ H).
  by destruct (forallb isHexDigit [c1; c2; c3; c4; c5; c6]).
Qed.

Lemma hexToRgb_length (c : ascii) (rest : string) :
  c ≠ "#"%char → String.length rest ≠ 5%nat → hexToRgb (String c rest) = None.
Proof.
  intros H Hl. unfold hexToRgb, hexPatternExec. rewrite (not_hash_prefix c _ H).
  destruct rest as [|c2 [|c3 [|c4 [|c5 [|c6 [|c7 tl]]]]]]; try done.
Qed.

Lemma length_toLowerCase (s : string) : String.length (toLowerCase s) = String.length s.
Proof. induction s as [|c s IH]; [done|]. cbn. by rewrite IH. Qed.

Lemma hexToRgb_lower_digits (c : ascii) (rest : string) :
  c ≠ "#"%char →
  hexToRgb (String (lowerAscii c) (toLowerCase rest)) = hexToRgb (String c rest).
Proof.
  intros H.
  assert (H' : lowerAscii c ≠ "#"%char) by (by rewrite lowerAscii_hash).
  destruct (decide (String.length rest = 5%nat)) as [Hl|Hl].
  - destruct rest as [|c2 [|c3 [|c4 [|c5 [|c6 [|c7 tl]]]]]]; try discriminate Hl.
    cbn [toLowerCase]. rewrite !hexToRgb_digits by done.
    cbn [forallb]. rewrite !isHexDigit_lowerAscii.
    destruct (isHexDigit c) eqn:E1; [|done].
    destruct (isHexDigit c2) eqn:E2; [|done].
    destruct (isHexDigit c3) eqn:E3; [|done].
    destruct (isHexDigit c4) eqn:E4; [|done].
    destruct (isHexDigit c5) eqn:E5; [|done].
    destruct (isHexDigit c6) eqn:E6; [|done].
    cbn [andb]. unfold parseInt16. cbn [list_ascii_of_string fold_left].
    by rewrite !digitValue_lowerAscii.
  - rewrite !hexToRgb_length; try done. by rewrite length_toLowerCase.
Qed.

Lemma hexToRgb_toLowerCase (s : string) : hexToRgb (toLowerCase s) = hexToRgb s.
Proof.
  destruct s as [|c0 rest]; [done|].
  destruct (decide (c0 = "#"%char)) as [->|H0]; [|by apply hexToRgb_lower_digits].
  destruct rest as [|c1 rest]; [done|].
  destruct (decide (c1 = "#"%char)) as [->|H1].
  - change (toLowerCase (String "#" (String "#" rest)))
      with (String "#" (String "#" (toLowerCase rest))).
    by rewrite !hexToRgb_two_hashes.
  - change (toLowerCase (String "#" (String c1 rest)))
      with (String "#" (String (lowerAscii c1) (toLowerCase rest))).
    rewrite !hexToRgb_after_hash; [by apply hexToRgb_lower_digits | done |].
    by rewrite lowerAscii_hash.
Qed.

Lemma hexToRgb_valid (s : string) (c : Rgb) : hexToRgb s = Some c → validRgb c.
Proof.
  intros E. destruct (hexToRgb_Some s) as (c' & E' & V).
  - apply hexPatternExec_matches. unfold hexToRgb in E.
    destruct (hexPatternExec s); [by eexists | discriminate E].
  - congruence.
Qed.

Lemma rgbToHex_channels (c : Rgb) :
  validRgb c →
  rgbToHex (inject_Z (r c)) (inject_Z (g c)) (inject_Z (b c)) = colorString c.
Proof.
  intros (Vr & Vg & Vb). unfold rgbToHex. cbn [map].
  rewrite !Math_round_inject_Z.
  rewrite (renderChannel_hexPair _ Vr), (renderChannel_hexPair _ Vg),
    (renderChannel_hexPair _ Vb).
  rewrite concat_hexPairs. by destruct c.
Qed.

Lemma canonical_no_hash (c : ascii) (rest : string) :
  c ≠ "#"%char → canonical (String c rest) = String "#" (toLowerCase (String c rest)).
Proof.
  destruct c as [[] [] [] [] [] [] [] []]; intros H;
    first [ reflexivity | by destruct H ].
Qed.

(** The canonical string of a decoded colour is the argument in lowercase,
    with its ['#']. *)
Lemma colorString_hexToRgb (s : string) (c : Rgb) :
  hexToRgb s = Some c → colorString c = canonical s.
Proof.
  assert (core : ∀ c0 rest c, c0 ≠ "#"%char → hexToRgb (String c0 rest) = Some c →
                   colorString c = String "#" (toLowerCase (String c0 rest))).
  { clear s c. intros c0 rest c H0 E.
    destruct (decide (String.length rest = 5%nat)) as [Hl|Hl];
      [|by rewrite hexToRgb_length in E].
    destruct rest as [|c2 [|c3 [|c4 [|c5 [|c6 [|c7 tl]]]]]]; try discriminate Hl.
    rewrite hexToRgb_digits in E by done.
    destruct (forallb isHexDigit [c0; c2; c3; c4; c5; c6]) eqn:D; [|discriminate E].
    injection E as <-. cbn [forallb] in D.
    repeat (apply andb_prop in D; destruct D as [? D]).
    unfold colorString. cbn [r g b].
    rewrite !hexPair_parseInt16 by done. reflexivity. }
  intros E. destruct s as [|c0 rest]; [discriminate E|].
  destruct (decide (c0 = "#"%char)) as [->|H0].
  - destruct rest as [|c1 rest]; [discriminate E|].
    destruct (decide (c1 = "#"%char)) as [->|H1];
      [by rewrite hexToRgb_two_hashes in E|].
    rewrite hexToRgb_after_hash in E by done.
    by rewrite (core c1 rest c H1 E).
  - rewrite (core c0 rest c H0 E).
    symmetry. exact (canonical_no_hash c0 rest H0).
Qed.

(** ** Colour Mixer: further properties *)

Lemma mixColors_decoded (s1 s2 : string) (c1 c2 : Rgb) (ratio : Q) :
  hexToRgb s1 = Some c1 → hexToRgb s2 = Some c2 →
  mixColors s1 s2 ratio
  = Ok (rgbToHex (inject_Z (r c1) * ratio + inject_Z (r c2) * (1 - ratio))
                 (inject_Z (g c1) * ratio + inject_Z (g c2) * (1 - ratio))
                 (inject_Z (b c1) * ratio + inject_Z (b c2) * (1 - ratio))).
Proof. intros E1 E2. unfold mixColors. by rewrite E1, E2. Qed.

Lemma mixColors_spelling (s1 s2 : string) (c1 c2 : Rgb) (ratio : Q) :
  hexToRgb s1 = Some c1 → hexToRgb s2 = Some c2 →
  mixColors s1 s2 ratio = mixColors (colorString c1) (colorString c2) ratio.
Proof.
  intros E1 E2.
  rewrite (mixColors_decoded s1 s2 c1 c2 ratio E1 E2).
  symmetry. apply mixColors_decoded; apply hexToRgb_colorString;
    by eapply hexToRgb_valid.
Qed.

(** A value between two integers rounds to an integer between them. *)
Lemma Math_round_between (lo hi : Z) (x : Q) :
  (inject_Z lo <= x <= inject_Z hi)%Q → lo <= Math_round x <= hi.
Proof.
  intros [L U]. destruct (Math_round_bounds x) as [H1 H2].
  assert (A : (inject_Z lo + inject_Z (-1) < inject_Z (Math_round x))%Q).
  { change (inject_Z (-1)) with (-1 # 1)%Q. lra. }
  assert (B : (inject_Z (Math_round x) < inject_Z hi + inject_Z 1)%Q).
  { change (inject_Z 1) with 1%Q. lra. }
  rewrite <- inject_Z_plus in A, B. rewrite <- Zlt_Qlt in A, B. lia.
Qed.

Lemma mixed_between (lo hi x1 x2 : Z) (ratio : Q) :
  lo <= x1 <= hi → lo <= x2 <= hi → (0 <= ratio <= 1)%Q →
  lo <= Math_round (inject_Z x1 * ratio + inject_Z x2 * (1 - ratio)) <= hi.
Proof.
  intros [L1 U1] [L2 U2] [Lr Ur]. apply Math_round_between.
  rewrite Zle_Qle in L1, U1, L2, U2.
  assert (A1 : (0 <= (inject_Z x1 - inject_Z lo) * ratio)%Q)
    by (apply Qmult_le_0_compat; lra).
  assert (A2 : (0 <= (inject_Z x2 - inject_Z lo) * (1 - ratio))%Q)
    by (apply Qmult_le_0_compat; lra).
  assert (B1 : (0 <= (inject_Z hi - inject_Z x1) * ratio)%Q)
    by (apply Qmult_le_0_compat; lra).
  assert (B2 : (0 <= (inject_Z hi - inject_Z x2) * (1 - ratio))%Q)
    by (apply Qmult_le_0_compat; lra).
  split; lra.
Qed.

(** At the default ratio a channel is the mean of the two, halves up. *)
Lemma Math_round_half (x1 x2 : Z) :
  Math_round (inject_Z x1 * (1 # 2) + inject_Z x2 * (1 - (1 # 2))) = (x1 + x2 + 1) / 2.
Proof.
  unfold Math_round.
  transitivity (Qfloor ((x1 + x2 + 1) # 2)); [|reflexivity].
  apply Qfloor_comp. unfold Qeq, inject_Z. cbn. lia.
Qed.

Lemma renderChannel64_rounded (x : PrimFloat.float) (n : Z) :
  Math_round64 x = Some n → renderChannel64 x = renderChannel n.
Proof.
  unfold Math_round64, renderChannel64. destruct (exactValue x); cbn; [|done].
  by intros [= ->].
Qed.

(** Where the doubles and the rationals agree on every pair of channel
    values, the two mixers agree on every pair of arguments. *)
Lemma mixColors64_mixColors (ratio64 : PrimFloat.float) (ratio : Q) :
  (∀ x y, channel x → channel y →
     Math_round64 (mixedChannel64 x y ratio64)
     = Some (Math_round (inject_Z x * ratio + inject_Z y * (1 - ratio)))) →
  ∀ color1 color2, mixColors64 color1 color2 ratio64 = mixColors color1 color2 ratio.
Proof.
  intros Hall color1 color2. unfold mixColors64, mixColors.
  destruct (hexToRgb color1) as [c1|] eqn:E1; [|done].
  destruct (hexToRgb color2) as [c2|] eqn:E2; [|done].
  destruct (hexToRgb_valid _ _ E1) as (R1 & G1 & B1).
  destruct (hexToRgb_valid _ _ E2) as (R2 & G2 & B2).
  cbn [readRgb mbind Res_bind mret Res_ret]. unfold rgbToHex. cbn [map].
  by rewrite (renderChannel64_rounded _ _ (Hall _ _ R1 R2)),
    (renderChannel64_rounded _ _ (Hall _ _ G1 G2)),
    (renderChannel64_rounded _ _ (Hall _ _ B1 B2)).
Qed.

(** X1. The decoder accepts exactly the strings of six hexadecimal digits of
    either case with an optional leading ['#'], and what it returns are three
    channel values in 0..255 whose canonical string is the argument in
    lowercase with its ['#']. *)
Theorem hexToRgb_accepts_exactly (hex : string) :
  (is_Some (hexToRgb hex) ↔ matchesHexPattern hex)
  ∧ ∀ c, hexToRgb hex = Some c → validRgb c ∧ colorString c = canonical hex.
Proof.
  split; [split|].
  - intros [c E]. apply hexPatternExec_matches. unfold hexToRgb in E.
    destruct (hexPatternExec hex); [by eexists | discriminate E].
  - intros H. destruct (hexToRgb_Some hex H) as (c & E & _). by exists c.
  - intros c E. split; [by eapply hexToRgb_valid | by apply colorString_hexToRgb].
Qed.

(** X2. The decoder sees neither the case of the letters (the [i] flag of the
    pattern) nor whether the ['#'] is there: an argument, the argument in
    lowercase and its canonical spelling are decoded alike. *)
Theorem hexToRgb_ignores_spelling (hex : string) :
  hexToRgb (toLowerCase hex) = hexToRgb hex
  ∧ hexToRgb (canonical hex) = hexToRgb hex.
Proof.
  split; [apply hexToRgb_toLowerCase|].
  destruct hex as [|c rest]; [done|].
  destruct (decide (c = "#"%char)) as [->|H].
  - change (canonical (String "#" rest)) with (toLowerCase (String "#" rest)).
    apply hexToRgb_toLowerCase.
  - rewrite (canonical_no_hash c rest H).
    change (toLowerCase (String c rest)) with (String (lowerAscii c) (toLowerCase rest)).
    rewrite hexToRgb_after_hash by (by rewrite lowerAscii_hash).
    by apply hexToRgb_lower_digits.
Qed.

(** X3. Round trip of the encoder and the decoder of [mixColors]: a colour
    written by [rgbToHex] is read back by [hexToRgb], and a string read by
    [hexToRgb] is written back by [rgbToHex] in canonical form, which for a
    lowercase [#rrggbb] string is the string itself. *)
Theorem rgbToHex_hexToRgb_round_trip (c : Rgb) (hex : string) :
  validRgb c →
  hexToRgb (rgbToHex (inject_Z (r c)) (inject_Z (g c)) (inject_Z (b c))) = Some c
  ∧ (hexToRgb hex = Some c →
     rgbToHex (inject_Z (r c)) (inject_Z (g c)) (inject_Z (b c)) = canonical hex
     ∧ (isColorString hex = true → canonical hex = hex)).
Proof.
  intros V. rewrite (rgbToHex_channels c V).
  split; [by apply hexToRgb_colorString|].
  intros E. split; [by apply colorString_hexToRgb|].
  intros Hs. unfold isColorString in Hs.
  destruct hex as [|c0 [|c1 [|c2 [|c3 [|c4 [|c5 [|c6 [|c7 tl]]]]]]]];
    try discriminate Hs;
    try (destruct c0 as [[] [] [] [] [] [] [] []]; discriminate Hs).
  destruct (decide (c0 = "#"%char)) as [->|H0];
    [|destruct c0 as [[] [] [] [] [] [] [] []]; first [ discriminate Hs | by destruct H0 ]].
  cbn [forallb] in Hs. repeat (apply andb_prop in Hs; destruct Hs as [? Hs]).
  change (canonical (String "#" (String c1 (String c2 (String c3 (String c4
            (String c5 (String c6 ""))))))))
    with (String "#" (String (lowerAscii c1) (String (lowerAscii c2)
            (String (lowerAscii c3) (String (lowerAscii c4) (String (lowerAscii c5)
            (String (lowerAscii c6) ""))))))).
  by rewrite !isLowerHexDigit_lowerAscii.
Qed.

Lemma rgbToHex_hexToRgb_round_trip_witness :
  validRgb teal
  ∧ hexToRgb "#008081" = Some teal
  ∧ hexToRgb (rgbToHex 0 128 129) = Some teal
  ∧ rgbToHex 0 128 129 = "#008081".
Proof.
  assert (V : validRgb teal) by (unfold validRgb, channel; simpl; lia).
  assert (E : hexToRgb "#008081" = Some teal) by reflexivity.
  destruct (rgbToHex_hexToRgb_round_trip teal "#008081" V) as [H1 H2].
  destruct (H2 E) as [H3 H4].
  split; [exact V|]. split; [exact E|]. split; [exact H1|].
  rewrite <- (H4 eq_refl). exact H3.
Defined.

(** X4. [mixColors] returns a string exactly when both colour arguments match
    the pattern, whatever the ratio; otherwise it throws. *)
Theorem mixColors_returns_iff_wellformed (color1 color2 : string) (ratio : Q) :
  (∃ mixed, mixColors color1 color2 ratio = Ok mixed)
  ↔ matchesHexPattern color1 ∧ matchesHexPattern color2.
Proof.
  rewrite <- !hexPatternExec_matches. unfold mixColors, hexToRgb.
  destruct (hexPatternExec color1) as [[[a1 a2] a3]|];
    destruct (hexPatternExec color2) as [[[b1 b2] b3]|]; cbn; split;
    first [ intros [x Hx]; discriminate Hx
          | intros [[x Hx] [y Hy]]; first [ discriminate Hx | discriminate Hy ]
          | intros _; by eexists
          | intros _; split; by eexists ].
Qed.



(** X6. For a ratio in [0,1] every channel of the result lies between the
    corresponding channels of the two arguments. *)
Theorem mixColors_between_inputs (color1 color2 : string) (c1 c2 : Rgb) (ratio : Q) :
  hexToRgb color1 = Some c1 → hexToRgb color2 = Some c2 → (0 <= ratio <= 1)%Q →
  ∃ out,
    mixColors color1 color2 ratio = Ok (colorString out)
    ∧ hexToRgb (colorString out) = Some out
    ∧ Z.min (r c1) (r c2) <= r out <= Z.max (r c1) (r c2)
    ∧ Z.min (g c1) (g c2) <= g out <= Z.max (g c1) (g c2)
    ∧ Z.min (b c1) (b c2) <= b out <= Z.max (b c1) (b c2).
Proof.
  intros E1 E2 Hr.
  pose proof (hexToRgb_valid _ _ E1) as V1. pose proof (hexToRgb_valid _ _ E2) as V2.
  set (out := {| r := Math_round (inject_Z (r c1) * ratio + inject_Z (r c2) * (1 - ratio));
                 g := Math_round (inject_Z (g c1) * ratio + inject_Z (g c2) * (1 - ratio));
                 b := Math_round (inject_Z (b c1) * ratio + inject_Z (b c2) * (1 - ratio)) |}).
  assert (Br : Z.min (r c1) (r c2) <= r out <= Z.max (r c1) (r c2))
    by (apply mixed_between; [lia | lia | done]).
  assert (Bg : Z.min (g c1) (g c2) <= g out <= Z.max (g c1) (g c2))
    by (apply mixed_between; [lia | lia | done]).
  assert (Bb : Z.min (b c1) (b c2) <= b out <= Z.max (b c1) (b c2))
    by (apply mixed_between; [lia | lia | done]).
  assert (Vout : validRgb out).
  { destruct V1 as (? & ? & ?), V2 as (? & ? & ?). unfold validRgb, channel in *. lia. }
  exists out. split.
  - rewrite (mixColors_spelling _ _ _ _ ratio E1 E2).
    by apply mixColors_channels.
  - split; [by apply hexToRgb_colorString | done].
Qed.

Lemma mixColors_between_inputs_witness :
  hexToRgb "#008081" = Some teal ∧ hexToRgb "#ff0000" = Some red
  ∧ (0 <= 1 # 3 <= 1)%Q
  ∧ ∃ out, mixColors "#008081" "#ff0000" (1 # 3) = Ok (colorString out)
           ∧ 0 <= r out <= 255 ∧ 0 <= g out <= 128 ∧ 0 <= b out <= 129.
Proof.
  assert (Hr : (0 <= 1 # 3 <= 1)%Q) by (unfold Qle; simpl; lia).
  split; [reflexivity|]. split; [reflexivity|]. split; [exact Hr|].
  destruct (mixColors_between_inputs "#008081" "#ff0000" teal red (1 # 3)
              eq_refl eq_refl Hr) as (out & E & _ & Br & Bg & Bb).
  exists out. split; [exact E|]. split; [exact Br|]. split; [exact Bg | exact Bb].
Defined.

Lemma mean_channel (x y : Z) : channel x → channel y → channel ((x + y + 1) / 2).
Proof.
  unfold channel. intros [? ?] [? ?]. split; [apply Z.div_pos; lia|].
  apply Z.lt_succ_r, Z.div_lt_upper_bound; lia.
Qed.

Lemma mixColors_half (color1 color2 : string) (c1 c2 : Rgb) :
  hexToRgb color1 = Some c1 → hexToRgb color2 = Some c2 →
  mixColors color1 color2 (1 # 2)
  = Ok (colorString {| r := (r c1 + r c2 + 1) / 2;
                       g := (g c1 + g c2 + 1) / 2;
                       b := (b c1 + b c2 + 1) / 2 |}).
Proof.
  intros E1 E2.
  destruct (hexToRgb_valid _ _ E1) as (R1 & G1 & B1) eqn:V1.
  destruct (hexToRgb_valid _ _ E2) as (R2 & G2 & B2) eqn:V2.
  rewrite (mixColors_spelling _ _ _ _ _ E1 E2).
  apply mixColors_channels; [by eapply hexToRgb_valid | by eapply hexToRgb_valid | | | |];
    cbn [r g b]; try apply Math_round_half.
  repeat split; cbn [r g b]; by apply mean_channel.
Qed.

(** X7. With the default ratio every channel of the result is the mean of the
    two channels, rounded half up, and the order of the two arguments does
    not matter. *)
Theorem mixColors_default_mean (color1 color2 : string) (c1 c2 : Rgb) :
  hexToRgb color1 = Some c1 → hexToRgb color2 = Some c2 →
  mixColors_default color1 color2
  = Ok (colorString {| r := (r c1 + r c2 + 1) / 2;
                       g := (g c1 + g c2 + 1) / 2;
                       b := (b c1 + b c2 + 1) / 2 |})
  ∧ mixColors_default color2 color1 = mixColors_default color1 color2.
Proof.
  intros E1 E2. unfold mixColors_default.
  rewrite (mixColors_half _ _ _ _ E1 E2), (mixColors_half _ _ _ _ E2 E1).
  split; [done|].
  by rewrite (Z.add_comm (r c2)), (Z.add_comm (g c2)), (Z.add_comm (b c2)).
Qed.

Lemma mixColors_default_mean_witness :
  hexToRgb "#008081" = Some teal ∧ hexToRgb "ffffff" = Some white
  ∧ mixColors_default "#008081" "ffffff" = Ok "#80c0c0"
  ∧ mixColors_default "ffffff" "#008081" = Ok "#80c0c0".
Proof.
  destruct (mixColors_default_mean "#008081" "ffffff" teal white eq_refl eq_refl)
    as [H1 H2].
  split; [reflexivity|]. split; [reflexivity|]. split; [exact H1|].
  rewrite H2. exact H1.
Defined.

(** ** The mixer on IEEE doubles *)

Lemma mixColors64_decoded (color1 color2 : string) (c1 c2 : Rgb) (ratio : PrimFloat.float) :
  hexToRgb color1 = Some c1 → hexToRgb color2 = Some c2 →
  mixColors64 color1 color2 ratio
  = Ok ("#" +:+ String.concat ""
          (map renderChannel64
             [mixedChannel64 (r c1) (r c2) ratio;
              mixedChannel64 (g c1) (g c2) ratio;
              mixedChannel64 (b c1) (b c2) ratio])).
Proof. intros E1 E2. unfold mixColors64. by rewrite E1, E2. Qed.

(** X8. Evaluated on IEEE doubles, [mixColors] returns what the rational
    model returns: at the default ratio 0.5 for every pair of arguments, and
    at the ratio 0.1 with white, as [processImage] calls it, for every first
    argument.  At the ratios 1 and 0 it gives back the first and the second
    colour. *)
Theorem mixColors64_agrees (color1 color2 : string) :
  mixColors64 color1 color2 half64 = mixColors_default color1 color2
  ∧ mixColors64 color1 "#ffffff" tenth64 = mixColors color1 "#ffffff" (1 # 10)
  ∧ ∀ c1 c2, hexToRgb color1 = Some c1 → hexToRgb color2 = Some c2 →
      mixColors64 color1 color2 PrimFloat.one = Ok (colorString c1)
      ∧ mixColors64 color1 color2 PrimFloat.zero = Ok (colorString c2).
Proof.
  split; [apply (mixColors64_mixColors half64 (1 # 2)), binary64_half|]. split.
  - unfold mixColors64, mixColors. destruct (hexToRgb color1) as [c1|] eqn:E1; [|done].
    destruct (hexToRgb_valid _ _ E1) as (R1 & G1 & B1).
    change (hexToRgb "#ffffff") with (Some white).
    cbn [readRgb mbind Res_bind mret Res_ret r g b white]. unfold rgbToHex. cbn [map].
    by rewrite (renderChannel64_rounded _ _ (binary64_tenth _ R1)),
      (renderChannel64_rounded _ _ (binary64_tenth _ G1)),
      (renderChannel64_rounded _ _ (binary64_tenth _ B1)).
  - intros c1 c2 E1 E2.
    destruct (hexToRgb_valid _ _ E1) as (R1 & G1 & B1).
    destruct (hexToRgb_valid _ _ E2) as (R2 & G2 & B2).
    destruct (binary64_endpoints _ _ R1 R2) as [Hr1 Hr0].
    destruct (binary64_endpoints _ _ G1 G2) as [Hg1 Hg0].
    destruct (binary64_endpoints _ _ B1 B2) as [Hb1 Hb0].
    rewrite !(mixColors64_decoded _ _ _ _ _ E1 E2). cbn [map].
    change PrimFloat.one with (float_of_channel 1).
    change PrimFloat.zero with (float_of_channel 0).
    rewrite (renderChannel64_rounded _ _ Hr1), (renderChannel64_rounded _ _ Hg1),
      (renderChannel64_rounded _ _ Hb1), (renderChannel64_rounded _ _ Hr0),
      (renderChannel64_rounded _ _ Hg0), (renderChannel64_rounded _ _ Hb0).
    rewrite !renderChannel_hexPair by done. rewrite !concat_hexPairs.
    by destruct c1, c2.
Qed.

(** NaN is absorbing in the arithmetic of the channel expression. *)
Lemma mul_nan (x : PrimFloat.float) : PrimFloat.mul x PrimFloat.nan = PrimFloat.nan.
Proof.
  rewrite <- (FloatAxioms.SF2Prim_Prim2SF (PrimFloat.mul x PrimFloat.nan)).
  rewrite FloatAxioms.mul_spec.
  change (FloatOps.Prim2SF PrimFloat.nan) with SpecFloat.S754_nan.
  by destruct (FloatOps.Prim2SF x).
Qed.

Lemma sub_nan (x : PrimFloat.float) : PrimFloat.sub x PrimFloat.nan = PrimFloat.nan.
Proof.
  rewrite <- (FloatAxioms.SF2Prim_Prim2SF (PrimFloat.sub x PrimFloat.nan)).
  rewrite FloatAxioms.sub_spec.
  change (FloatOps.Prim2SF PrimFloat.nan) with SpecFloat.S754_nan.
  by destruct (FloatOps.Prim2SF x).
Qed.

Lemma mixedChannel64_nan (x1 x2 : Z) :
  renderChannel64 (mixedChannel64 x1 x2 PrimFloat.nan) = "NaN".
Proof. unfold mixedChannel64. by rewrite sub_nan, !mul_nan. Qed.

(** X9. A ratio that is no number goes through unchecked: for arguments that
    match the pattern the result is the string [#NaNNaNNaN], which is no
    colour, and nothing is thrown. *)
Theorem mixColors64_nan_ratio (color1 color2 : string) :
  matchesHexPattern color1 → matchesHexPattern color2 →
  mixColors64 color1 color2 PrimFloat.nan = Ok "#NaNNaNNaN"
  ∧ isColorString "#NaNNaNNaN" = false.
Proof.
  intros M1 M2. split; [|reflexivity].
  destruct (hexToRgb_Some _ M1) as (c1 & E1 & _).
  destruct (hexToRgb_Some _ M2) as (c2 & E2 & _).
  rewrite (mixColors64_decoded _ _ _ _ _ E1 E2). cbn [map].
  by rewrite !mixedChannel64_nan.
Qed.

Lemma matchesHexPattern_decide (s : string) :
  is_Some (hexPatternExec s) → matchesHexPattern s.
Proof. apply hexPatternExec_matches. Qed.

Lemma mixColors64_nan_ratio_witness :
  matchesHexPattern "#ff0000" ∧ matchesHexPattern "#ffffff"
  ∧ mixColors64 "#ff0000" "#ffffff" PrimFloat.nan = Ok "#NaNNaNNaN".
Proof.
  assert (M1 : matchesHexPattern "#ff0000")
    by (apply matchesHexPattern_decide; vm_compute; eexists; reflexivity).
  assert (M2 : matchesHexPattern "#ffffff")
    by (apply matchesHexPattern_decide; vm_compute; eexists; reflexivity).
  split; [exact M1|]. split; [exact M2|].
  exact (proj1 (mixColors64_nan_ratio "#ff0000" "#ffffff" M1 M2)).
Defined.

(** ** Colour Extractor: further properties *)

Lemma toString16_not_empty (n : Z) : toString16 n ≠ "".
Proof.
  unfold toString16, HexadecimalString.NilZero.string_of_int.
  destruct (Z.to_hex_int n) as [d|d]; [|discriminate].
  unfold HexadecimalString.NilZero.string_of_uint. by destruct d.
Qed.

Lemma padStart2_renderChannel (n : Z) : padStart2 (toString16 n) = renderChannel n.
Proof.
  unfold renderChannel. pose proof (toString16_not_empty n) as H.
  by destruct (toString16 n) as [|c [|c' s]].
Qed.

(** X10. The encoder of the extractor and the encoder of the mixer write the
    same string for every triple of integers; on channel values it is the
    canonical colour string, which the decoder of the mixer reads back. *)
Theorem toHex_rgbToHex (c : Rgb) :
  toHex (rgbArray c) = rgbToHex (inject_Z (r c)) (inject_Z (g c)) (inject_Z (b c))
  ∧ (validRgb c →
     toHex (rgbArray c) = colorString c ∧ hexToRgb (toHex (rgbArray c)) = Some c).
Proof.
  assert (E : toHex (rgbArray c)
              = rgbToHex (inject_Z (r c)) (inject_Z (g c)) (inject_Z (b c))).
  { unfold toHex, rgbToHex, rgbArray. cbn [map].
    by rewrite !padStart2_renderChannel, !Math_round_inject_Z. }
  split; [exact E|]. intros V. rewrite E, (rgbToHex_channels c V).
  split; [done | by apply hexToRgb_colorString].
Qed.

Lemma validColors_fallback : validColors fallbackColors.
Proof. by repeat split. Qed.

Lemma toHex_validTriple (rgb : list Z) :
  validTriple rgb → isColorString (toHex rgb) = true.
Proof.
  intros (c & V & ->). rewrite (toHex_rgbArray c V). by apply isColorString_colorString.
Qed.

Lemma paletteColors_valid (palette : list (list Z)) (average : list Z) :
  Forall validTriple palette → validTriple average →
  ∃ colors, paletteColors (Some palette) (Some average) = Ok colors
            ∧ validColors colors.
Proof.
  intros Hp Ha. pose proof (toHex_validTriple _ Ha) as Va.
  unfold paletteColors. cbn [readArray mbind Res_bind].
  destruct palette as [|p1 [|p2 more]]; cbn [lookup list_lookup].
  - change (mixColors "#000000" "#ffffff" (1 # 10)) with (Ok "#e6e6e6" : Res string).
    eexists. split; [reflexivity|]. by repeat split.
  - apply Forall_cons in Hp as [(c & V & ->) _].
    destruct (paletteColors_single c average V) as [_ E].
    rewrite (toHex_rgbArray c V), E. eexists. split; [reflexivity|].
    repeat split; cbn; [done | by apply isColorString_colorString |].
    apply isColorString_colorString.
    by apply (mixColors_mixSpec c white (1 # 10) V validRgb_white).
  - apply Forall_cons in Hp as [H1 Hp]. apply Forall_cons in Hp as [H2 _].
    eexists. split; [reflexivity|].
    repeat split; cbn; [done | by apply toHex_validTriple | by apply toHex_validTriple].
Qed.

Lemma paletteColors_Ok (palette : option (list (list Z))) (average : option (list Z))
    (colors : Colors) :
  paletteColors palette average = Ok colors →
  ∃ p a, palette = Some p ∧ average = Some a.
Proof.
  intros E. destruct palette as [p|]; [|discriminate E].
  destruct average as [a|]; [by eexists _, _|].
  unfold paletteColors in E. cbn [readArray mbind Res_bind] in E.
  destruct (p !! 1%nat); [discriminate E|].
  by destruct (mixColors _ _ _).
Qed.

Lemma colorsOf_valid (h : Host) (data : list byte) :
  libraryGivesColors h data → validColors (colorsOf h data).
Proof.
  intros [Hp Ha]. unfold colorsOf.
  destruct (getPalette h data) as [palette|e]; [|apply validColors_fallback].
  destruct (getColor h data) as [average|e]; [|apply validColors_fallback].
  destruct (paletteColors palette average) as [colors|e] eqn:E;
    [|apply validColors_fallback].
  destruct (paletteColors_Ok _ _ _ E) as (p & a & -> & ->).
  destruct (paletteColors_valid p a (Hp _ eq_refl) (Ha _ eq_refl)) as (colors' & E' & V).
  congruence.
Qed.

(** What a call on present bytes returns and what it leaves behind. *)
Lemma processImage_colorsOf (h : Host) (data : list byte) (w : World) :
  ∃ w',
    processImage h (Some data) w = (Ok (colorsOf h data), w')
    ∧ (∀ path, path ≠ tempFileName (Date_now h) → files w' !! path = files w !! path)
    ∧ (files w' !! tempFileName (Date_now h) = None
       ∨ files w' !! tempFileName (Date_now h) = Some (Binary data))
    ∧ (console w' = console w
       ∨ ∃ e, console w' = console w ++ [ErrorProcessingImage e]
              ∧ colorsOf h data = fallbackColors).
Proof.
  rewrite processImage_Some. unfold colorsOf.
  destruct (getPalette h data) as [palette|e].
  - destruct (getColor h data) as [average|e].
    + destruct (paletteColors palette average) as [colors|e];
        (eexists; split; [reflexivity|]; cbn [files console logged]; split;
         [intros path Hp; by rewrite lookup_delete_ne
         |split; [left; apply lookup_delete_eq|]]);
        [by left | right; by exists e].
    + eexists; split; [reflexivity|]; cbn [files console logged]; split;
        [intros path Hp; by rewrite lookup_insert_ne
        |split; [right; apply lookup_insert_eq | right; by exists e]].
  - eexists; split; [reflexivity|]; cbn [files console logged]; split;
      [intros path Hp; by rewrite lookup_insert_ne
      |split; [right; apply lookup_insert_eq | right; by exists e]].
Qed.

(** X11. When the library answers with channel values (or not at all), the three
    strings that the extractor returns are valid lowercase [#rrggbb]
    colours, on every path: absent bytes, rejected image, short palette,
    full palette. *)
Theorem processImage_colors_wellformed
    (h : Host) (imageBuffer : option (list byte)) (w : World) :
  (∀ data, imageBuffer = Some data → libraryGivesColors h data) →
  ∃ colors w',
    processImage h imageBuffer w = (Ok colors, w') ∧ validColors colors.
Proof.
  intros Hlib. destruct imageBuffer as [data|].
  - destruct (processImage_colorsOf h data w) as (w' & E & _).
    exists (colorsOf h data), w'. split; [exact E|]. by apply colorsOf_valid, Hlib.
  - exists fallbackColors, w. split; [reflexivity | apply validColors_fallback].
Qed.

Lemma validTriple_rgbArray (c : Rgb) : validRgb c → validTriple (rgbArray c).
Proof. intros V. by exists c. Qed.

Lemma validRgb_red : validRgb red.
Proof. unfold validRgb, channel. cbn. lia. Qed.

Lemma processImage_colors_wellformed_witness :
  (∀ data, Some logoBytes = Some data → libraryGivesColors redHost data)
  ∧ ∃ colors w',
      processImage redHost (Some logoBytes) emptyWorld = (Ok colors, w')
      ∧ validColors colors.
Proof.
  assert (H : ∀ data, Some logoBytes = Some data → libraryGivesColors redHost data).
  { intros data _. split.
    - intros palette [= <-]. apply Forall_singleton, validTriple_rgbArray, validRgb_red.
    - intros average [= <-]. apply validTriple_rgbArray, validRgb_red. }
  split; [exact H|].
  exact (processImage_colors_wellformed redHost (Some logoBytes) emptyWorld H).
Defined.

(** X12. The extractor never throws.  Its result depends on the answers of the
    library only, not on the files that are there; it touches no file but
    its temporary file, under whose name nothing of what was there before
    the call survives; and it prints at most one line, an error, in which
    case it returns the fallback triple. *)
Theorem processImage_frame (h : Host) (imageBuffer : option (list byte)) (w : World) :
  ∃ w',
    processImage h imageBuffer w
    = (Ok (from_option (colorsOf h) fallbackColors imageBuffer), w')
    ∧ (∀ path, path ≠ tempFileName (Date_now h) → files w' !! path = files w !! path)
    ∧ (∀ data, imageBuffer = Some data →
         files w' !! tempFileName (Date_now h) = None
         ∨ files w' !! tempFileName (Date_now h) = Some (Binary data))
    ∧ (console w' = console w
       ∨ ∃ e, console w' = console w ++ [ErrorProcessingImage e]
              ∧ from_option (colorsOf h) fallbackColors imageBuffer = fallbackColors).
Proof.
  destruct imageBuffer as [data|].
  - destruct (processImage_colorsOf h data w) as (w' & E & F & T & C).
    exists w'. split; [exact E|]. split; [exact F|]. split; [|exact C].
    by intros ? [= <-].
  - exists w. split; [reflexivity|]. split; [done|]. split; [done | by left].
Qed.

(** X13. With a palette of two or more colours and an average colour, the
    result is the first two palette entries and the average, in canonical
    form; further entries are ignored, the mixer is not consulted, nothing
    is printed and the temporary file is gone. *)
Theorem processImage_full_palette
    (h : Host) (data : list byte) (w : World)
    (p1 p2 average : Rgb) (more : list (list Z)) :
  getPalette h data = Ok (Some (rgbArray p1 :: rgbArray p2 :: more)) →
  getColor h data = Ok (Some (rgbArray average)) →
  validRgb p1 → validRgb p2 → validRgb average →
  processImage h (Some data) w
  = (Ok {| averageColor := colorString average;
           dominantColor1 := colorString p1;
           dominantColor2 := colorString p2 |},
     {| files := delete (tempFileName (Date_now h)) (files w);
        console := console w |}).
Proof.
  intros Hp Ha V1 V2 Va. rewrite processImage_Some, Hp, Ha.
  unfold paletteColors. cbn [readArray mbind Res_bind mret Res_ret lookup list_lookup].
  by rewrite (toHex_rgbArray _ V1), (toHex_rgbArray _ V2), (toHex_rgbArray _ Va).
Qed.

Lemma processImage_full_palette_witness :
  validRgb red ∧ validRgb teal ∧ validRgb white
  ∧ processImage twoToneHost (Some logoBytes) emptyWorld
    = (Ok {| averageColor := "#ffffff";
             dominantColor1 := "#ff0000";
             dominantColor2 := "#008081" |}, emptyWorld).
Proof.
  assert (T : validRgb teal) by (unfold validRgb, channel; simpl; lia).
  split; [exact validRgb_red|]. split; [exact T|]. split; [exact validRgb_white|].
  exact (processImage_full_palette twoToneHost logoBytes emptyWorld red teal white []
           eq_refl eq_refl validRgb_red T validRgb_white).
Defined.

(** X14. An exception of the mixer does not leave the extractor: when the
    palette has one entry and its hex string is not a colour (a channel
    outside 0..255), [mixColors] throws on line 74, the [catch] block
    prints the error and the whole result is the fallback triple.  The
    temporary file is gone by then. *)
Theorem processImage_mixer_error_caught
    (h : Host) (data : list byte) (w : World) (rgb : list Z)
    (average : option (list Z)) :
  getPalette h data = Ok (Some [rgb]) →
  getColor h data = Ok average →
  ¬ matchesHexPattern (toHex rgb) →
  processImage h (Some data) w
  = (Ok fallbackColors,
     logged (ErrorProcessingImage TypeError)
       {| files := delete (tempFileName (Date_now h)) (files w);
          console := console w |}).
Proof.
  intros Hp Hc Hm. rewrite processImage_Some, Hp, Hc.
  unfold paletteColors. cbn [readArray mbind Res_bind lookup list_lookup].
  unfold mixColors. by rewrite (hexToRgb_None _ Hm).
Qed.

Lemma processImage_mixer_error_caught_witness :
  ¬ matchesHexPattern (toHex [256; 0; 0])
  ∧ processImage overflowHost (Some logoBytes) emptyWorld
    = (Ok fallbackColors,
       {| files := ∅; console := [ErrorProcessingImage TypeError] |}).
Proof.
  assert (H : ¬ matchesHexPattern (toHex [256; 0; 0])).
  { intros Hm. apply hexPatternExec_matches in Hm as [x Hx]. vm_compute in Hx.
    discriminate Hx. }
  split; [exact H|].
  exact (processImage_mixer_error_caught overflowHost logoBytes emptyWorld
           [256; 0; 0] (Some (rgbArray red)) eq_refl eq_refl H).
Defined.

(** ** Image Fetcher: further properties *)


(** ** Record Merger: further properties *)

Lemma keys_replaceProp (k : string) (v : JValue) (o : Obj) :
  keys (replaceProp k v o) = keys o.
Proof.
  induction o as [|[k' x] o IH]; [done|].
  cbn [replaceProp]. destruct (String.eqb k' k); [done|].
  cbn [keys map fst]. f_equal. exact IH.
Qed.

Lemma keys_setProp (k : string) (v : JValue) (o : Obj) (x : string) :
  x ∈ keys (setProp k v o) → x = k ∨ x ∈ keys o.
Proof.
  unfold setProp. destruct (String.eqb k "__proto__"); [by right|].
  destruct (hasKey k o).
  - rewrite keys_replaceProp. by right.
  - rewrite keys_app. intros [?|Hx]%elem_of_app; [by right|].
    left. cbn in Hx. by apply list_elem_of_singleton in Hx.
Qed.

Lemma keys_mergeStep (colors : Colors) (acc : Obj) (k : string) (v : JValue) (x : string) :
  x ∈ keys (mergeStep colors acc (k, v)) → x = k ∨ x ∈ colorKeys ∨ x ∈ keys acc.
Proof.
  unfold mergeStep, colorKeys. destruct (String.eqb k "logoURI").
  - intros H. apply keys_setProp in H as [->|H]; [right; left; by do 2 right; left|].
    apply keys_setProp in H as [->|H]; [right; left; by right; left|].
    apply keys_setProp in H as [->|H]; [right; left; by left|].
    apply keys_setProp in H as [->|H]; [by left | by do 2 right].
  - intros H. apply keys_setProp in H as [->|H]; [by left | by do 2 right].
Qed.

Lemma isColorKey_true (k : string) : isColorKey k = true ↔ k ∈ colorKeys.
Proof.
  unfold isColorKey. rewrite existsb_exists. split.
  - intros (x & Hin & Heq). apply String.eqb_eq in Heq. subst x.
    by apply list_elem_of_In.
  - intros Hin. exists k. split; [by apply list_elem_of_In | apply String.eqb_refl].
Qed.

Lemma isColorKey_false (k : string) : isColorKey k = false ↔ k ∉ colorKeys.
Proof. rewrite <- isColorKey_true. by destruct (isColorKey k). Qed.

Lemma otherFields_app (o1 o2 : Obj) :
  otherFields (o1 ++ o2) = otherFields o1 ++ otherFields o2.
Proof. apply List.filter_app. Qed.

Lemma otherFields_replaceProp (k : string) (v : JValue) (o : Obj) :
  isColorKey k = true → otherFields (replaceProp k v o) = otherFields o.
Proof.
  intros Hk. induction o as [|[k' x] o IH]; [done|].
  cbn [replaceProp]. destruct (String.eqb_spec k' k) as [->|_].
  - unfold otherFields. cbn [List.filter fst]. by rewrite Hk.
  - unfold otherFields in *. cbn [List.filter fst]. by rewrite IH.
Qed.

Lemma otherFields_setProp_color (k : string) (v : JValue) (o : Obj) :
  isColorKey k = true → otherFields (setProp k v o) = otherFields o.
Proof.
  intros Hk. unfold setProp. destruct (String.eqb k "__proto__"); [done|].
  destruct (hasKey k o); [by apply otherFields_replaceProp|].
  rewrite otherFields_app. unfold otherFields at 2. cbn [List.filter fst].
  rewrite Hk. apply app_nil_r.
Qed.

Lemma otherFields_mergeStep (colors : Colors) (acc : Obj) (k : string) (v : JValue) :
  k ≠ "__proto__" → (isColorKey k = false → k ∉ keys acc) →
  otherFields (mergeStep colors acc (k, v))
  = otherFields acc ++ otherFields [(k, v)].
Proof.
  intros Hp Hk.
  assert (E : otherFields (setProp k v acc) = otherFields acc ++ otherFields [(k, v)]).
  { destruct (isColorKey k) eqn:Ec.
    - rewrite otherFields_setProp_color by done.
      unfold otherFields at 3. cbn [List.filter fst]. rewrite Ec. by rewrite app_nil_r.
    - rewrite setProp_new; [apply otherFields_app | done | by apply Hk]. }
  unfold mergeStep. destruct (String.eqb k "logoURI"); [|exact E].
  rewrite (otherFields_setProp_color "dominantColor2") by done.
  rewrite (otherFields_setProp_color "dominantColor1") by done.
  by rewrite (otherFields_setProp_color "averageColor").
Qed.

Lemma fold_mergeStep_otherFields (colors : Colors) (l : Obj) :
  ∀ acc,
    NoDup (keys l) → "__proto__" ∉ keys l →
    (∀ k, k ∈ keys l → k ∉ colorKeys → k ∉ keys acc) →
    otherFields (fold_left (mergeStep colors) l acc)
    = otherFields acc ++ otherFields l.
Proof.
  induction l as [|[k v] l IH]; intros acc Hnd Hp Hacc.
  - by rewrite app_nil_r.
  - cbn [keys map fst] in Hnd, Hp, Hacc. fold (keys l) in Hnd, Hp, Hacc.
    apply NoDup_cons in Hnd as [Hk Hnd].
    apply not_elem_of_cons in Hp as [Hkp Hp].
    cbn [fold_left]. rewrite IH; [| done | done |].
    + rewrite otherFields_mergeStep; [| done |].
      * rewrite <- app_assoc. f_equal.
        change ((k, v) :: l) with ([(k, v)] ++ l). by rewrite otherFields_app.
      * intros Hc. apply Hacc; [by left | by apply isColorKey_false].
    + intros k' Hk' Hc' Hin. apply keys_mergeStep in Hin as [->|[Hin|Hin]]; [done..|].
      by apply (Hacc k'); [right|..].
Qed.

Lemma otherFields_merged (t : Obj) (colors : Colors) :
  plainRecord t → otherFields (mergeColors t colors) = otherFields t.
Proof.
  intros [Hnd Hp]. unfold mergeColors.
  rewrite fold_mergeStep_otherFields; [done | done | done |].
  intros k _ _. apply not_elem_of_nil.
Qed.

Lemma getProp_otherFields (t : Obj) (k : string) :
  k ∉ colorKeys → getProp (otherFields t) k = getProp t k.
Proof.
  intros Hk. induction t as [|[k' v] t IH]; [done|].
  unfold otherFields in *. cbn [List.filter fst getProp].
  destruct (isColorKey k') eqn:Ec; cbn [negb getProp].
  - destruct (String.eqb_spec k' k) as [->|_]; [|exact IH].
    by apply isColorKey_true in Ec.
  - by rewrite IH.
Qed.

(** X16. Whatever the record holds, colour keys included, the merge keeps the
    fields that are no colour fields: the same keys in the same order with
    the same values. *)
Theorem mergeColors_keeps_other_fields (t : Obj) (colors : Colors) :
  plainRecord t →
  otherFields (mergeColors t colors) = otherFields t
  ∧ ∀ k, k ∉ colorKeys → getProp (mergeColors t colors) k = getProp t k.
Proof.
  intros Hplain. pose proof (otherFields_merged t colors Hplain) as E.
  split; [exact E|]. intros k Hk.
  by rewrite <- (getProp_otherFields (mergeColors t colors) k Hk), E,
    getProp_otherFields.
Qed.

Lemma plainRecord_handAuthored : plainRecord handAuthoredToken.
Proof. apply plainRecord_decide. vm_compute. reflexivity. Qed.

Lemma mergeColors_keeps_other_fields_witness :
  plainRecord handAuthoredToken
  ∧ otherFields (mergeColors handAuthoredToken someColors)
    = [("symbol", JStr "PLYR"); ("logoURI", JStr "https://example.org/plyr.png")].
Proof.
  split; [exact plainRecord_handAuthored|].
  exact (proj1 (mergeColors_keeps_other_fields handAuthoredToken someColors
                  plainRecord_handAuthored)).
Defined.

(** X17. A record without a logo key is copied as it is. *)
Theorem mergeColors_without_logo (t : Obj) (colors : Colors) :
  plainRecord t → "logoURI" ∉ keys t → mergeColors t colors = t.
Proof.
  intros [Hnd Hp] Hl. unfold mergeColors.
  rewrite fold_mergeStep_plain; [done | done |].
  intros k Hk. split; [by intros ->|]. split; [by intros ->|]. apply not_elem_of_nil.
Qed.

Lemma mergeColors_without_logo_witness :
  plainRecord bareToken ∧ ("logoURI" ∉ keys bareToken)
  ∧ mergeColors bareToken someColors = bareToken.
Proof.
  assert (H1 : plainRecord bareToken) by (apply plainRecord_decide; vm_compute; reflexivity).
  assert (H2 : "logoURI" ∉ keys bareToken)
    by (apply (bool_decide_unpack _); vm_compute; exact I).
  split; [exact H1|]. split; [exact H2|].
  exact (mergeColors_without_logo bareToken someColors H1 H2).
Defined.

Lemma getProp_None (t : Obj) (k : string) : k ∉ keys t → getProp t k = None.
Proof.
  induction t as [|[k' v] t IH]; intros Hk; [done|].
  cbn in Hk. apply not_elem_of_cons in Hk as [Hne Hk]. cbn [getProp].
  destruct (String.eqb_spec k' k) as [->|_]; [done | by apply IH].
Qed.

(** The loop behind the logo key: a colour key that is met takes the place
    of the computed value, any other key is appended. *)
Lemma fold_mergeStep_behind_logo (colors : Colors) (u : JValue) (post : Obj) :
  ∀ (a1 a2 a3 : JValue) (tail : Obj),
    NoDup (keys post) →
    (∀ k, k ∈ keys post → k ≠ "logoURI" ∧ k ≠ "__proto__" ∧ k ∉ keys tail) →
    fold_left (mergeStep colors) post
      (("logoURI", u) :: ("averageColor", a1) :: ("dominantColor1", a2)
         :: ("dominantColor2", a3) :: tail)
    = ("logoURI", u)
        :: ("averageColor", default a1 (getProp post "averageColor"))
        :: ("dominantColor1", default a2 (getProp post "dominantColor1"))
        :: ("dominantColor2", default a3 (getProp post "dominantColor2"))
        :: tail ++ otherFields post.
Proof.
  induction post as [|[k v] post IH]; intros a1 a2 a3 tail Hnd Hpost.
  - cbn. by rewrite app_nil_r.
  - cbn [keys map fst] in Hnd, Hpost. fold (keys post) in Hnd, Hpost.
    apply NoDup_cons in Hnd as [Hk Hnd].
    destruct (Hpost k) as (Hl & Hp & Ht); [by left|].
    assert (Hpost' : ∀ k', k' ∈ keys post →
                     k' ≠ "logoURI" ∧ k' ≠ "__proto__" ∧ k' ∉ keys tail).
    { intros k' Hk'. apply Hpost. by right. }
    cbn [fold_left].
    destruct (decide (k = "averageColor")) as [->|N1];
      [|destruct (decide (k = "dominantColor1")) as [->|N2];
        [|destruct (decide (k = "dominantColor2")) as [->|N3]]].
    + change (mergeStep colors _ ("averageColor", v))
        with (("logoURI", u) :: ("averageColor", v) :: ("dominantColor1", a2)
                :: ("dominantColor2", a3) :: tail).
      rewrite IH by done. cbn [getProp]. rewrite (getProp_None post _ Hk).
      reflexivity.
    + change (mergeStep colors _ ("dominantColor1", v))
        with (("logoURI", u) :: ("averageColor", a1) :: ("dominantColor1", v)
                :: ("dominantColor2", a3) :: tail).
      rewrite IH by done. cbn [getProp]. rewrite (getProp_None post _ Hk).
      reflexivity.
    + change (mergeStep colors _ ("dominantColor2", v))
        with (("logoURI", u) :: ("averageColor", a1) :: ("dominantColor1", a2)
                :: ("dominantColor2", v) :: tail).
      rewrite IH by done. cbn [getProp]. rewrite (getProp_None post _ Hk).
      reflexivity.
    + assert (Ec : isColorKey k = false).
      { apply isColorKey_false. unfold colorKeys. intros Hc.
        repeat (apply elem_of_cons in Hc as [?|Hc]; [done|]). by apply elem_of_nil in Hc. }
      assert (Hnew : k ∉ keys (("logoURI", u) :: ("averageColor", a1)
                                 :: ("dominantColor1", a2) :: ("dominantColor2", a3)
                                 :: tail)).
      { cbn [keys map fst]. fold (keys tail). intros Hin.
        repeat (apply elem_of_cons in Hin as [?|Hin]; [done|]). done. }
      rewrite mergeStep_plain by done.
      change ((("logoURI", u) :: ("averageColor", a1) :: ("dominantColor1", a2)
                 :: ("dominantColor2", a3) :: tail) ++ [(k, v)])
        with (("logoURI", u) :: ("averageColor", a1) :: ("dominantColor1", a2)
                :: ("dominantColor2", a3) :: (tail ++ [(k, v)])).
      rewrite IH; [| done |].
      * cbn [getProp].
        destruct (String.eqb_spec k "averageColor") as [?|_]; [done|].
        destruct (String.eqb_spec k "dominantColor1") as [?|_]; [done|].
        destruct (String.eqb_spec k "dominantColor2") as [?|_]; [done|].
        unfold otherFields at 2. cbn [List.filter fst]. rewrite Ec. cbn [negb].
        by rewrite <- app_assoc.
      * intros k' Hk'. destruct (Hpost' k' Hk') as (H1 & H2 & H3).
        split; [done|]. split; [done|]. rewrite keys_app.
        intros [?|Hin]%elem_of_app; [done|]. cbn in Hin.
        apply list_elem_of_singleton in Hin. by subst.
Qed.

Lemma otherFields_keys (t : Obj) (k : string) :
  k ∈ keys (otherFields t) → k ∈ keys t ∧ k ∉ colorKeys.
Proof.
  induction t as [|[k' v] t IH]; [by intros ?%elem_of_nil|].
  unfold otherFields in *. cbn [List.filter fst].
  destruct (isColorKey k') eqn:Ec; cbn [negb keys map fst].
  - intros H. destruct (IH H) as [H1 H2]. split; [by right | done].
  - intros [->|H]%elem_of_cons.
    + split; [by left | by apply isColorKey_false].
    + destruct (IH H) as [H1 H2]. split; [by right | done].
Qed.

Lemma otherFields_NoDup (t : Obj) : NoDup (keys t) → NoDup (keys (otherFields t)).
Proof.
  induction t as [|[k v] t IH]; [done|].
  cbn [keys map fst]. intros [Hk Hnd]%NoDup_cons.
  unfold otherFields in *. cbn [List.filter fst].
  destruct (isColorKey k); cbn [negb keys map fst]; [by apply IH|].
  apply NoDup_cons. split; [|by apply IH].
  intros Hin. by apply otherFields_keys in Hin as [? _].
Qed.

Lemma mergeColors_behind_logo (pre post : Obj) (u : JValue) (colors : Colors) :
  plainRecord (pre ++ ("logoURI", u) :: post) →
  (∀ c, c ∈ colorKeys → c ∉ keys pre) →
  mergeColors (pre ++ ("logoURI", u) :: post) colors
  = pre ++ ("logoURI", u) :: mergedColorEntries post colors ++ otherFields post.
Proof.
  intros [Hnd Hp] Hc. rewrite keys_app in Hp. cbn [keys map fst] in Hp.
  fold (keys post) in Hp.
  pose proof Hnd as Hnd'. rewrite keys_app in Hnd'. cbn [keys map fst] in Hnd'.
  fold (keys post) in Hnd'.
  apply NoDup_app in Hnd' as (_ & Hdisj & [Hl Hpost]%NoDup_cons).
  rewrite mergeColors_app; [| done | | | done].
  - f_equal. unfold mergeColors. cbn [fold_left].
    change (mergeStep colors [] ("logoURI", u))
      with [("logoURI", u); ("averageColor", JStr (averageColor colors));
            ("dominantColor1", JStr (dominantColor1 colors));
            ("dominantColor2", JStr (dominantColor2 colors))].
    rewrite fold_mergeStep_behind_logo; [done | done |].
    intros k Hk. split; [by intros ->|]. split; [|apply not_elem_of_nil].
    intros ->. apply Hp, elem_of_app. right. by right.
  - intros Hin. apply (Hdisj _ Hin). by left.
  - intros Hin. apply Hp, elem_of_app. by left.
Qed.

Lemma plainRecord_merged (pre post : Obj) (u a1 a2 a3 : JValue) :
  plainRecord (pre ++ ("logoURI", u) :: post) →
  (∀ c, c ∈ colorKeys → c ∉ keys pre) →
  plainRecord
    (pre ++ ("logoURI", u) :: ("averageColor", a1) :: ("dominantColor1", a2)
         :: ("dominantColor2", a3) :: otherFields post).
Proof.
  intros [Hnd Hp] Hc. rewrite keys_app in Hnd, Hp. cbn [keys map fst] in Hnd, Hp.
  fold (keys post) in Hnd, Hp.
  apply NoDup_app in Hnd as (Hnpre & Hdisj & [Hl Hpost]%NoDup_cons).
  assert (Hother : ∀ k, k ∈ keys (otherFields post) → k ∈ keys post ∧ k ∉ colorKeys)
    by apply otherFields_keys.
  assert (Hcol : ∀ c, c ∈ colorKeys → c ∉ keys (otherFields post)).
  { intros c Hin Hk. by apply Hother in Hk as [_ ?]. }
  unfold colorKeys in Hc, Hcol.
  split.
  - rewrite keys_app. cbn [keys map fst]. fold (keys (otherFields post)).
    apply NoDup_app. split; [done|]. split.
    + intros k Hk Hk'. apply elem_of_cons in Hk' as [->|Hk']; [by apply (Hdisj _ Hk); left|].
      apply elem_of_cons in Hk' as [->|Hk']; [apply (Hc "averageColor"); [by left|done]|].
      apply elem_of_cons in Hk' as [->|Hk'];
        [apply (Hc "dominantColor1"); [by right; left|done]|].
      apply elem_of_cons in Hk' as [->|Hk'];
        [apply (Hc "dominantColor2"); [by do 2 right; left|done]|].
      apply Hother in Hk' as [Hk' _]. by apply (Hdisj k Hk); right.
    + repeat (apply NoDup_cons; split); [| | | |by apply otherFields_NoDup].
      * intros Hk. repeat (apply elem_of_cons in Hk as [?|Hk]; [done|]).
        by apply Hother in Hk as [? _].
      * intros Hk. repeat (apply elem_of_cons in Hk as [?|Hk]; [done|]).
        by apply (Hcol "averageColor"); [left|].
      * intros Hk. repeat (apply elem_of_cons in Hk as [?|Hk]; [done|]).
        by apply (Hcol "dominantColor1"); [right; left|].
      * intros Hk. by apply (Hcol "dominantColor2"); [do 2 right; left|].
  - rewrite keys_app. cbn [keys map fst]. fold (keys (otherFields post)).
    intros [Hk|Hk]%elem_of_app; [apply Hp, elem_of_app; by left|].
    repeat (apply elem_of_cons in Hk as [?|Hk]; [done|]).
    apply Hother in Hk as [Hk _]. apply Hp, elem_of_app. right. by right.
Qed.

(** X18. The merged record in closed form, for a record with a logo key and no
    colour key in front of it: the fields in front of the logo key, the logo
    key, the three colour keys in the order [averageColor],
    [dominantColor1], [dominantColor2], each with the value stored behind
    the logo key if there is one and with the computed colour otherwise,
    and then the other fields that were behind the logo key, in their
    order. *)
Theorem mergeColors_closed_form (pre post : Obj) (u : JValue) (colors : Colors) :
  plainRecord (pre ++ ("logoURI", u) :: post) →
  (∀ c, c ∈ colorKeys → c ∉ keys pre) →
  mergeColors (pre ++ ("logoURI", u) :: post) colors
  = pre ++ ("logoURI", u) :: mergedColorEntries post colors ++ otherFields post
  ∧ keys (mergeColors (pre ++ ("logoURI", u) :: post) colors)
    = keys pre ++ "logoURI" :: colorKeys ++ keys (otherFields post).
Proof.
  intros Hplain Hc. rewrite (mergeColors_behind_logo pre post u colors Hplain Hc).
  split; [done|]. rewrite keys_app. reflexivity.
Qed.

Lemma plainRecord_scattered : plainRecord scatteredToken.
Proof. apply plainRecord_decide. vm_compute. reflexivity. Qed.

Lemma mergeColors_closed_form_witness :
  plainRecord scatteredToken
  ∧ (∀ c, c ∈ colorKeys → c ∉ keys [("symbol", JStr "PLYR")])
  ∧ mergeColors scatteredToken someColors
    = [("symbol", JStr "PLYR"); ("logoURI", JStr "https://example.org/plyr.png");
       ("averageColor", JStr "#ff0000"); ("dominantColor1", JStr "#ff0000");
       ("dominantColor2", JStr "#123456"); ("decimals", JNum 18)].
Proof.
  assert (Hc : ∀ c, c ∈ colorKeys → c ∉ keys [("symbol", JStr "PLYR")]).
  { intros c Hc. unfold colorKeys in Hc.
    repeat (apply elem_of_cons in Hc as [->|Hc];
            [apply (bool_decide_unpack _); vm_compute; exact I|]).
    by apply elem_of_nil in Hc. }
  split; [exact plainRecord_scattered|]. split; [exact Hc|].
  exact (proj1 (mergeColors_closed_form [("symbol", JStr "PLYR")]
                  [("decimals", JNum 18); ("dominantColor2", JStr "#123456")]
                  (JStr "https://example.org/plyr.png") someColors
                  plainRecord_scattered Hc)).
Defined.

(** X19. Merging is idempotent on every record with a logo key and no colour
    key in front of it: a second pass, with whatever colours, returns the
    record that the first pass built. *)
Theorem mergeColors_idempotent (pre post : Obj) (u : JValue) (colors colors' : Colors) :
  plainRecord (pre ++ ("logoURI", u) :: post) →
  (∀ c, c ∈ colorKeys → c ∉ keys pre) →
  mergeColors (mergeColors (pre ++ ("logoURI", u) :: post) colors) colors'
  = mergeColors (pre ++ ("logoURI", u) :: post) colors.
Proof.
  intros Hplain Hc. rewrite (mergeColors_behind_logo pre post u colors Hplain Hc).
  unfold mergedColorEntries. cbn [app].
  apply mergeColors_stored. by apply plainRecord_merged.
Qed.

Lemma mergeColors_idempotent_witness :
  plainRecord scatteredToken
  ∧ (∀ c, c ∈ colorKeys → c ∉ keys [("symbol", JStr "PLYR")])
  ∧ mergeColors (mergeColors scatteredToken someColors) fallbackColors
    = mergeColors scatteredToken someColors.
Proof.
  assert (Hc : ∀ c, c ∈ colorKeys → c ∉ keys [("symbol", JStr "PLYR")]).
  { intros c Hc. unfold colorKeys in Hc.
    repeat (apply elem_of_cons in Hc as [->|Hc];
            [apply (bool_decide_unpack _); vm_compute; exact I|]).
    by apply elem_of_nil in Hc. }
  split; [exact plainRecord_scattered|]. split; [exact Hc|].
  exact (mergeColors_idempotent [("symbol", JStr "PLYR")]
           [("decimals", JNum 18); ("dominantColor2", JStr "#123456")]
           (JStr "https://example.org/plyr.png") someColors fallbackColors
           plainRecord_scattered Hc).
Defined.

(** X20. On the store, the loop writes to one object only, which it allocates:
    the merged record is there under a reference that was not in use, and
    every object that was in the store, the token among them, is as it
    was. *)
Theorem mergeColorsRef_fresh_object
    (σ : Store) (token : positive) (t : Obj) (colors : Colors) :
  σ !! token = Some t → NoDup (keys t) →
  ∃ σ' newToken,
    mergeColorsRef σ token colors = (σ', newToken)
    ∧ (newToken ∉ dom σ)
    ∧ σ' !! newToken = Some (mergeColors t colors)
    ∧ ∀ ref, ref ≠ newToken → σ' !! ref = σ !! ref.
Proof.
  intros Ht Hnd.
  destruct (mergeColorsRef_mergeColors σ token t colors Ht Hnd) as (E & Hfresh & _).
  eexists _, _. split; [exact E|]. split; [exact Hfresh|].
  split; [apply lookup_insert_eq|]. intros ref Hne. by apply lookup_insert_ne.
Qed.

Lemma mergeColorsRef_fresh_object_witness :
  ({[ 1%positive := handAuthoredToken ]} : Store) !! 1%positive = Some handAuthoredToken
  ∧ NoDup (keys handAuthoredToken)
  ∧ ∃ σ' newToken,
      mergeColorsRef {[ 1%positive := handAuthoredToken ]} 1%positive someColors
      = (σ', newToken)
      ∧ σ' !! 1%positive = Some handAuthoredToken.
Proof.
  assert (H1 : ({[ 1%positive := handAuthoredToken ]} : Store) !! 1%positive
               = Some handAuthoredToken) by reflexivity.
  pose proof (proj1 plainRecord_handAuthored) as H2.
  split; [exact H1|]. split; [exact H2|].
  destruct (mergeColorsRef_fresh_object _ 1%positive handAuthoredToken someColors H1 H2)
    as (σ' & newToken & E & Hfresh & _ & Hold).
  exists σ', newToken. split; [exact E|].
  rewrite Hold; [exact H1|]. intros Heq. apply Hfresh. rewrite <- Heq.
  apply elem_of_dom. by eexists.
Defined.

Lemma jsMergeColors_mergeColors_witness :
  jsOrdered indexedToken
  ∧ jsMergeColors indexedToken someColors
    = [("7", JNull); ("42", JNull); ("logoURI", JStr "https://example.org/plyr.png");
       ("averageColor", JStr "#ff0000"); ("dominantColor1", JStr "#ff0000");
       ("dominantColor2", JStr "#ffe6e6"); ("symbol", JStr "PLYR")].
Proof.
  assert (H : jsOrdered indexedToken) by reflexivity.
  split; [exact H|].
  rewrite (jsMergeColors_mergeColors indexedToken someColors H). reflexivity.
Defined.

(** ** Batch Driver: further properties *)

(** One pass of the loop body, in closed form. *)
Lemma processTokenAt_run (h : Host) (i : nat) (toks : list Obj) (token : Obj) (w : World) :
  toks !! i = Some token →
  ∃ w',
    processTokenAt h i toks w = (Ok (<[i := tokenResult h token]> toks), w')
    ∧ ∀ path, path ≠ tempFileName (Date_now h) → files w' !! path = files w !! path.
Proof.
  intros Ht. unfold processTokenAt, tokenResult. rewrite Ht.
  destruct (truthy (getProp token "logoURI")).
  - unfold mbind, M_bind, console_log at 1. rewrite downloadImage_run.
    destruct (axios_get h _) as [data|e].
    + destruct (processImage_colorsOf h data
                  (logged (Processing (getProp token "symbol") (i + 1) (length toks)) w))
        as (w' & -> & F & _).
      eexists. split; [reflexivity|]. exact F.
    + eexists. split; [by rewrite list_insert_id|]. done.
  - exists w. split; [by rewrite list_insert_id|]. done.
Qed.

(** The loop, in closed form: every token from index [i] on is replaced by
    its result, and no file but the temporary files is touched. *)
Lemma forTokens_run (hosts : nat → Host) (count : nat) :
  ∀ (i : nat) (toks : list Obj) (w : World),
    (i + count = length toks)%nat →
    ∃ toks' w',
      forTokens hosts count i toks w = (Ok toks', w')
      ∧ length toks' = length toks
      ∧ (∀ j token, toks !! j = Some token →
           toks' !! j
           = Some (if decide (i ≤ j)%nat then tokenResult (hosts j) token else token))
      ∧ (∀ path,
           (∀ j, (i ≤ j < i + count)%nat → path ≠ tempFileName (Date_now (hosts j))) →
           files w' !! path = files w !! path).
Proof.
  induction count as [|count IH]; intros i toks w Hlen.
  - exists toks, w. split; [done|]. split; [done|]. split; [|done].
    intros j token Hj. pose proof (lookup_lt_Some _ _ _ Hj).
    destruct (decide (i ≤ j)%nat); [lia | done].
  - cbn [forTokens]. unfold mbind, M_bind.
    destruct (lookup_lt_is_Some_2 toks i) as [ti Hti]; [lia|].
    destruct (processTokenAt_run (hosts i) i toks ti w Hti) as (w1 & -> & F1).
    destruct (IH (S i) (<[i := tokenResult (hosts i) ti]> toks) w1)
      as (toks' & w' & E & L & O & F); [rewrite length_insert; lia|].
    exists toks', w'. split; [exact E|].
    split; [by rewrite L, length_insert|]. split.
    + intros j token Hj. destruct (decide (j = i)) as [->|Hne].
      * assert (ti = token) as -> by congruence.
        rewrite (O i (tokenResult (hosts i) token));
          [|apply list_lookup_insert_eq; by eapply lookup_lt_Some].
        destruct (decide (S i ≤ i)%nat); [lia|].
        destruct (decide (i ≤ i)%nat); [done | lia].
      * rewrite (O j token) by (by rewrite list_lookup_insert_ne).
        destruct (decide (S i ≤ j)%nat), (decide (i ≤ j)%nat); first [ done | lia ].
    + intros path Hpath. rewrite F; [apply F1, Hpath; lia|].
      intros j Hj. apply Hpath. lia.
Qed.

(** A run on a token list that is there, in closed form. *)
Lemma processTokenlist_closed_form (hosts : nat → Host) (w : World) (doc : TokenList) :
  files w !! tokenlistPath = Some (JsonText doc) →
  ∃ w2,
    processTokenlist hosts w
    = (Ok tt,
       logged Completed
         {| files :=
              <[previewPath := HtmlText (imap (λ j, tokenResult (hosts j)) (tokens doc))]>
                (<[tokenlistPath :=
                     JsonText {| tokens := imap (λ j, tokenResult (hosts j)) (tokens doc);
                                 siblings := siblings doc |}]>
                   (files w2));
            console := console w2 |})
    ∧ ∀ path, path ∉ tempFiles hosts (length (tokens doc)) →
        files w2 !! path = files w !! path.
Proof.
  intros Hf.
  destruct (forTokens_run hosts (length (tokens doc)) 0 (tokens doc)
              (logged ProcessingTokens w)) as (toks' & w2 & E & L & O & F); [lia|].
  assert (Etoks : toks' = imap (λ j, tokenResult (hosts j)) (tokens doc)).
  { apply list_eq. intros j. rewrite list_lookup_imap.
    destruct (tokens doc !! j) as [token|] eqn:Hj.
    - rewrite (O j token Hj). by destruct (decide (0 ≤ j)%nat); [|lia].
    - apply lookup_ge_None_2. rewrite L. by apply lookup_ge_None_1. }
  exists w2. split.
  - rewrite <- Etoks. by apply (processTokenlist_run hosts w w2 doc toks').
  - intros path Hpath. rewrite F; [done|].
    intros j Hj ->. apply Hpath. unfold tempFiles.
    apply list_elem_of_fmap. exists j. split; [done|].
    apply list_elem_of_In, in_seq. lia.
Qed.

Lemma otherFields_tokenResult (h : Host) (token : Obj) :
  plainRecord token → otherFields (tokenResult h token) = otherFields token.
Proof.
  intros Hplain. unfold tokenResult.
  destruct (truthy (getProp token "logoURI")); [|done].
  destruct (axios_get h _); [by apply otherFields_merged | done].
Qed.



(** X23. A run touches no file but the token list, the preview and the
    temporary files of its tokens. *)
Theorem processTokenlist_frame
    (hosts : nat → Host) (w : World) (doc : TokenList) (path : string) :
  files w !! tokenlistPath = Some (JsonText doc) →
  path ≠ tokenlistPath → path ≠ previewPath →
  path ∉ tempFiles hosts (length (tokens doc)) →
  files (processTokenlist hosts w).2 !! path = files w !! path.
Proof.
  intros Hf H1 H2 H3.
  destruct (processTokenlist_closed_form hosts w doc Hf) as (w2 & -> & F).
  cbn [snd files logged]. rewrite !lookup_insert_ne by done. by apply F.
Qed.

Lemma processTokenlist_frame_witness :
  files notesWorld !! tokenlistPath = Some (JsonText plyrList)
  ∧ files (processTokenlist (λ _, corruptHost) notesWorld).2 !! "notes.txt"
    = Some (PlainText "keep").
Proof.
  split; [reflexivity|].
  assert (H3 : "notes.txt" ∉ tempFiles (λ _, corruptHost) (length (tokens plyrList)))
    by (apply (bool_decide_unpack _); vm_compute; exact I).
  exact (processTokenlist_frame (λ _, corruptHost) notesWorld plyrList "notes.txt"
           eq_refl ltac:(discriminate) ltac:(discriminate) H3).
Defined.

(** X24. The run keeps the number of tokens, and of every token that is an
    ordinary record it keeps the fields that are no colour fields: their
    keys, their order and their values. *)
Theorem processTokenlist_preserves_fields
    (hosts : nat → Host) (w : World) (doc : TokenList) :
  files w !! tokenlistPath = Some (JsonText doc) →
  ∃ out w',
    processTokenlist hosts w = (Ok tt, w')
    ∧ files w' !! tokenlistPath
      = Some (JsonText {| tokens := out; siblings := siblings doc |})
    ∧ length out = length (tokens doc)
    ∧ ∀ j token, tokens doc !! j = Some token → plainRecord token →
        ∃ written,
          out !! j = Some written
          ∧ otherFields written = otherFields token
          ∧ ∀ k, k ∉ colorKeys → getProp written k = getProp token k.
Proof.
  intros Hf. destruct (processTokenlist_closed_form hosts w doc Hf) as (w2 & E & _).
  eexists _, _. split; [exact E|]. cbn [files logged]. split.
  { rewrite lookup_insert_ne by done. apply lookup_insert_eq. }
  split; [apply length_imap|].
  intros j token Hj Hplain. exists (tokenResult (hosts j) token).
  split; [by rewrite list_lookup_imap, Hj|].
  pose proof (otherFields_tokenResult (hosts j) token Hplain) as Eo.
  split; [exact Eo|]. intros k Hk.
  by rewrite <- (getProp_otherFields (tokenResult (hosts j) token) k Hk), Eo,
    getProp_otherFields.
Qed.

Lemma processTokenlist_preserves_fields_witness :
  files plyrWorld !! tokenlistPath = Some (JsonText plyrList)
  ∧ ∃ out w',
      processTokenlist (λ _, redHost) plyrWorld = (Ok tt, w')
      ∧ files w' !! tokenlistPath
        = Some (JsonText {| tokens := out; siblings := siblings plyrList |})
      ∧ length out = 2%nat
      ∧ ∃ written, out !! 1%nat = Some written
                   ∧ getProp written "decimals" = Some (JNum 18).
Proof.
  split; [reflexivity|].
  destruct (processTokenlist_preserves_fields (λ _, redHost) plyrWorld plyrList eq_refl)
    as (out & w' & E & J & L & O).
  assert (Hplain : plainRecord plyrToken)
    by (apply plainRecord_decide; vm_compute; reflexivity).
  assert (Hk : "decimals" ∉ colorKeys)
    by (apply (bool_decide_unpack _); vm_compute; exact I).
  destruct (O 1%nat plyrToken eq_refl Hplain) as (written & Hw & _ & Hget).
  exists out, w'. split; [exact E|]. split; [exact J|]. split; [exact L|].
  exists written. split; [exact Hw|]. exact (Hget "decimals" Hk).
Defined.





(** *** The temporary file of a rejected image *)






(** *** What a run prints *)





